(** * Per-tenant connection registry of the farm-management backend

    A shallow embedding of [Backend/utils/tenantManager.js]: the resolution
    of a tenant's database name, and [getTenantConnection] run on the
    single-threaded event loop, as a transition system whose steps are the
    synchronous stretches of code between two [await]s. *)

From stdpp Require Import gmap strings list.
From Stdlib Require Import Ascii.

(** ** Values handed in by the callers *)

(** [getTenantConnection] only ever applies [toString()] to its argument.
    Route handlers pass either a string or an object id, whose [toString()]
    is its textual form. *)
Inductive UserId :=
  | IdString (s : string)
  | IdObject (repr : string).

Definition toString (userId : UserId) : string :=
  match userId with
  | IdString s => s
  | IdObject repr => repr
  end.

(** The profile document returned by [User.findById]; only the field read
    by the tenant manager is kept. [None] is an absent (undefined or null)
    field. *)
Record User := { tenantDbName : option string }.

(** ** Database-name resolution (lines 27-29) *)

Module Resolver.

Definition PREFIX : string := "AI_FARM_user_".

(** [s.startsWith(pre)] *)
Definition startsWith (s pre : string) : bool := String.prefix pre s.

(** The condition [(user && user.tenantDbName)]: a null document, an
    absent field and the empty string are all falsy. *)
Definition storedName (user : option User) : option string :=
  match user with
  | None => None
  | Some u =>
      match tenantDbName u with
      | None => None
      | Some n => if String.eqb n "" then None else Some n
      end
  end.

(** line 28 *)
Definition dbIdentifier (idStr : string) (user : option User) : string :=
  match storedName user with
  | Some n => n
  | None => PREFIX +:+ idStr
  end.

(** line 29, on its own: ensure the prefix is present *)
Definition normalize (dbIdentifier : string) : string :=
  if startsWith dbIdentifier PREFIX then dbIdentifier
  else PREFIX +:+ dbIdentifier.

(** lines 28-29 *)
Definition dbName (idStr : string) (user : option User) : string :=
  normalize (dbIdentifier idStr user).

End Resolver.


(** ** The registry on the event loop *)

Module Registry.

(** Errors raised by the collaborators (URL parser, profile lookup,
    connector, schema registration, collection creation). The code never
    looks inside them. *)
Inductive Err :=
  | InvalidUrl
  | NamespaceExists
  | OtherError (msg : string).

(** A parsed [URL] object, as the URL Standard describes it: the scheme
    in lower case and without its colon; what stands between the two
    slashes and the path (credentials, host and port), [None] for a URL
    that has no host; the path, either opaque (a URL such as
    [mailto:someone], with neither the two slashes nor a leading slash) or
    a list of segments; the query and the fragment as [search] and [hash]
    return them. *)
Inductive UrlPath :=
  | Opaque (text : string)
  | Segments (segs : list string).

Record Url := {
  url_scheme : string;
  url_authority : option string;
  url_path : UrlPath;
  url_search : string;
  url_hash : string
}.

Definition isSpecial (scheme : string) : bool :=
  existsb (String.eqb scheme) ["ftp"; "file"; "http"; "https"; "ws"; "wss"].

(** ASCII tab, line feed and carriage return, which the parser removes
    from its input before anything else. *)
Definition isTabOrNewline (c : ascii) : bool :=
  let n := nat_of_ascii c in (n =? 9) || (n =? 10) || (n =? 13).

Fixpoint removeTabsAndNewlines (s : string) : string :=
  match s with
  | EmptyString => EmptyString
  | String c r =>
      if isTabOrNewline c then removeTabsAndNewlines r
      else String c (removeTabsAndNewlines r)
  end.

(** The path percent-encode set, on the bytes of the UTF-8 form: the C0
    controls, everything above [~], and the space, the double quote,
    [#], [<], [>], [?], [^], [`], [{], [}]. *)
Definition inPathPercentEncodeSet (c : ascii) : bool :=
  let n := nat_of_ascii c in
  (n <=? 31) || (127 <=? n) ||
  existsb (Nat.eqb n) [32; 34; 35; 60; 62; 63; 94; 96; 123; 125].

Definition hexDigit (n : nat) : ascii :=
  ascii_of_nat (if n <? 10 then 48 + n else 55 + n).

Definition percentEncode (c : ascii) : string :=
  if inPathPercentEncodeSet c then
    let n := nat_of_ascii c in
    String "%" (String (hexDigit (n / 16)) (String (hexDigit (n mod 16)) ""))
  else String c "".

Definition isSingleDot (buffer : string) : bool :=
  existsb (String.eqb buffer) ["."; "%2e"; "%2E"].

Definition isDoubleDot (buffer : string) : bool :=
  existsb (String.eqb buffer)
    [".."; ".%2e"; ".%2E"; "%2e."; "%2E."; "%2e%2e"; "%2e%2E"; "%2E%2e"; "%2E%2E"].

Definition isAsciiAlpha (c : ascii) : bool :=
  let n := nat_of_ascii c in
  ((65 <=? n) && (n <=? 90)) || ((97 <=? n) && (n <=? 122)).

(** A Windows drive letter: a letter followed by [:] or [|]. *)
Definition isDriveLetter (buffer : string) : bool :=
  match buffer with
  | String a (String b EmptyString) =>
      isAsciiAlpha a && (Ascii.eqb b ":" || Ascii.eqb b "|")
  | _ => false
  end.

Definition isNormalizedDriveLetter (buffer : string) : bool :=
  match buffer with
  | String a (String b EmptyString) => isAsciiAlpha a && Ascii.eqb b ":"
  | _ => false
  end.

Definition normalizeDriveLetter (buffer : string) : string :=
  match buffer with
  | String a _ => String a ":"
  | EmptyString => EmptyString
  end.

(** "Shorten a path": drop the last segment, except a lone drive letter
    of a file URL. *)
Definition shorten (scheme : string) (segs : list string) : list string :=
  match segs with
  | [seg] =>
      if String.eqb scheme "file" && isNormalizedDriveLetter seg then segs
      else []
  | _ => removelast segs
  end.

(** The path state at the end of a segment: at a separator
    ([atSeparator]) or at the end of the input. *)
Definition endSegment (scheme : string) (atSeparator : bool)
    (buffer : string) (segs : list string) : list string :=
  if isDoubleDot buffer then
    let segs' := shorten scheme segs in
    if atSeparator then segs' else segs' ++ [""]
  else if isSingleDot buffer then
    if atSeparator then segs else segs ++ [""]
  else
    match segs with
    | [] =>
        if String.eqb scheme "file" && isDriveLetter buffer
        then [normalizeDriveLetter buffer]
        else [buffer]
    | _ => segs ++ [buffer]
    end.

(** A slash, or in a special URL a backslash. *)
Definition isSeparator (special : bool) (c : ascii) : bool :=
  Ascii.eqb c "/" || (special && Ascii.eqb c "092").

(** The path state, entered with a state override: [?] and [#] end
    nothing and are percent-encoded like the rest. *)
Fixpoint pathState (scheme : string) (special : bool) (input buffer : string)
    (segs : list string) : list string :=
  match input with
  | EmptyString => endSegment scheme false buffer segs
  | String c rest =>
      if isSeparator special c then
        pathState scheme special rest "" (endSegment scheme true buffer segs)
      else
        pathState scheme special rest (buffer +:+ percentEncode c) segs
  end.

(** The path start state, entered with a state override and an empty path. *)
Definition pathStartState (url : Url) (input : string) : list string :=
  let scheme := url_scheme url in
  let special := isSpecial scheme in
  match input with
  | EmptyString =>
      if special then pathState scheme special "" "" []
      else match url_authority url with None => [""] | Some _ => [] end
  | String c rest =>
      if isSeparator special c then pathState scheme special rest "" []
      else pathState scheme special input "" []
  end.

(** The [pathname] setter of line 33: nothing happens on an opaque path;
    otherwise the path is emptied and the value parsed from the path start
    state. The string of line 34 is the serialization of the result. *)
Definition setPathname (url : Url) (value : string) : Url :=
  match url_path url with
  | Opaque _ => url
  | Segments _ =>
      {| url_scheme := url_scheme url; url_authority := url_authority url;
         url_path := Segments (pathStartState url (removeTabsAndNewlines value));
         url_search := url_search url; url_hash := url_hash url |}
  end.

(** The [pathname] getter: the opaque path itself, or every segment
    behind a slash. *)
Definition pathname (url : Url) : string :=
  match url_path url with
  | Opaque text => text
  | Segments segs => fold_right (λ seg out, "/" +:+ seg +:+ out) "" segs
  end.

(** A connection handle is an object: [conn_id] is its identity (the
    number of handles opened before it), [conn_uri] the address it was
    opened against. *)
Record Conn := { conn_id : nat; conn_uri : Url }.

(** What reading [connections[idStr]] can yield when it is not undefined:
    the promise of an attempt in flight, a ready handle, or, since
    [connections] is a plain object literal, a member inherited from
    [Object.prototype]. All three are truthy. *)
Inductive Value :=
  | Promise (p : nat)
  | Connection (c : Conn)
  | ProtoMember (name : string).

(** Property names every object literal inherits. *)
Definition objectPrototypeKeys : list string :=
  [ "constructor"; "__proto__"; "hasOwnProperty"; "isPrototypeOf";
    "propertyIsEnumerable"; "toLocaleString"; "toString"; "valueOf";
    "__defineGetter__"; "__defineSetter__"; "__lookupGetter__";
    "__lookupSetter__" ].

Definition isProtoKey (k : string) : bool :=
  existsb (String.eqb k) objectPrototypeKeys.

(** [connections[k]]: own property first, then the prototype. *)
Definition property (connections : gmap string Value) (k : string) : option Value :=
  match connections !! k with
  | Some v => Some v
  | None => if isProtoKey k then Some (ProtoMember k) else None
  end.

(** Where the anonymous async function of lines 21-57 is suspended. *)
Inductive Phase :=
  | AwaitFindById                                   (* line 25 *)
  | AwaitConnection (dbName : string) (uri : Url)   (* line 38 *)
  | AwaitCollection (conn : Conn) (rest : list string)  (* line 47 *)
  | Done (conn : Conn)                              (* line 51 *)
  | Failed (err : Err).                             (* line 55 *)

(** One run of that function; its position in [tasks] names the promise
    it returned. *)
Record Task := { t_key : string; t_phase : Phase }.

(** Calls made to the collaborators. *)
Inductive Effect :=
  | FindById (idStr : string)
  | CreateConnection (idStr : string) (uri : Url)
  | Model (conn : Conn) (modelName : string)
  | CreateCollection (conn : Conn) (collectionName : string).

Record State := {
  connections : gmap string Value;      (* own properties of [connections] *)
  tasks : list Task;
  returned : list (string * Value);     (* key and result of each call, newest first *)
  effects : list Effect;                (* newest first *)
  opened : nat                          (* handles created so far *)
}.

Definition init : State :=
  {| connections := ∅; tasks := []; returned := []; effects := []; opened := 0 |}.

(** What the environment and the modules outside this file provide. *)
Record Config := {
  mongoUrl : option Url;                (* [new URL(process.env.MONGO_URI)]; [None]: it throws *)
  schemaNames : list string;            (* [Object.keys(schemas)] *)
  modelThrows : string → option Err;    (* whether [conn.model(name, schemas[name])] throws *)
  pluralize : option (string → string)  (* [mongoose.pluralize()] *)
}.

Definition lowerAscii (c : ascii) : ascii :=
  let n := nat_of_ascii c in
  if (65 <=? n) && (n <=? 90) then ascii_of_nat (n + 32) else c.

(** [toLowerCase()] on the ASCII range. *)
Fixpoint toLowerCase (s : string) : string :=
  match s with
  | EmptyString => EmptyString
  | String c r => String (lowerAscii c) (toLowerCase r)
  end.

Inductive Event :=
  | Request (userId : UserId)
  | FindByIdSettled (p : nat) (r : Err + option User)
  | ConnectionSettled (p : nat) (r : option Err)
  | CollectionSettled (p : nat) (r : option Err).

Section Machine.

Context (cfg : Config).

(** line 46 *)
Definition collectionName (modelName : string) : string :=
  match pluralize cfg with
  | Some f => f modelName
  | None => toLowerCase modelName +:+ "s"
  end.

Definition setTask (p : nat) (k : string) (ph : Phase) (s : State) : State :=
  {| connections := connections s;
     tasks := <[p := {| t_key := k; t_phase := ph |}]> (tasks s);
     returned := returned s; effects := effects s; opened := opened s |}.

(** The catch block, lines 52-56. *)
Definition onError (p : nat) (k : string) (err : Err) (s : State) : State :=
  setTask p k (Failed err)
    {| connections := delete k (connections s);
       tasks := tasks s; returned := returned s; effects := effects s;
       opened := opened s |}.

(** The loop of lines 42-48 entered at the model names still to do, up to
    its next [await], and lines 50-51 once none is left. *)
Definition registerSchemas (p : nat) (k : string) (conn : Conn)
    (names : list string) (s : State) : State :=
  match names with
  | [] =>
      setTask p k (Done conn)
        {| connections := <[k := Connection conn]> (connections s);
           tasks := tasks s; returned := returned s; effects := effects s;
           opened := opened s |}
  | modelName :: rest =>
      match modelThrows cfg modelName with
      | Some err => onError p k err s
      | None =>
          setTask p k (AwaitCollection conn rest)
            {| connections := connections s; tasks := tasks s;
               returned := returned s;
               effects := CreateCollection conn (collectionName modelName)
                            :: Model conn modelName :: effects s;
               opened := opened s |}
      end
  end.

(** Lines 10-21 and 59, up to the first [await] of the inner function:
    a truthy [connections[idStr]] is returned as it is (a returned promise
    is adopted by the caller's own); otherwise the inner function starts,
    asks for the profile, and its promise is stored under [idStr] before
    anything else can run. The test of line 17 can never succeed after that
    of line 12 failed. *)
Definition getTenantConnection (userId : UserId) (s : State) : State :=
  let idStr := toString userId in
  match property (connections s) idStr with
  | Some v =>
      {| connections := connections s; tasks := tasks s;
         returned := (idStr, v) :: returned s;
         effects := effects s; opened := opened s |}
  | None =>
      let p := length (tasks s) in
      {| connections := <[idStr := Promise p]> (connections s);
         tasks := tasks s ++ [{| t_key := idStr; t_phase := AwaitFindById |}];
         returned := (idStr, Promise p) :: returned s;
         effects := FindById idStr :: effects s;
         opened := opened s |}
  end.

(** Lines 25-38: the profile lookup has settled. *)
Definition afterFindById (p : nat) (k : string) (r : Err + option User)
    (s : State) : State :=
  match r with
  | inl err => onError p k err s
  | inr user =>
      let dbName := Resolver.dbName k user in
      match mongoUrl cfg with
      | None => onError p k InvalidUrl s
      | Some url =>
          let uri := setPathname url ("/" +:+ dbName) in
          setTask p k (AwaitConnection dbName uri)
            {| connections := connections s; tasks := tasks s;
               returned := returned s;
               effects := CreateConnection k uri :: effects s;
               opened := opened s |}
      end
  end.

(** Lines 38-42: the connector has settled. *)
Definition afterCreateConnection (p : nat) (k : string) (uri : Url)
    (r : option Err) (s : State) : State :=
  match r with
  | Some err => onError p k err s
  | None =>
      let conn := {| conn_id := opened s; conn_uri := uri |} in
      registerSchemas p k conn (schemaNames cfg)
        {| connections := connections s; tasks := tasks s;
           returned := returned s; effects := effects s;
           opened := S (opened s) |}
  end.

(** Line 47: [.catch(() => { })] turns every outcome of
    [createCollection] into a normal completion, then the loop goes on. *)
Definition afterCreateCollection (p : nat) (k : string) (conn : Conn)
    (rest : list string) (r : option Err) (s : State) : State :=
  registerSchemas p k conn rest s.

(** One turn of the event loop. [None]: the event cannot happen in [s]
    (no such promise, or it is not waiting for that). *)
Definition step (s : State) (e : Event) : option State :=
  match e with
  | Request userId => Some (getTenantConnection userId s)
  | FindByIdSettled p r =>
      match tasks s !! p with
      | Some {| t_key := k; t_phase := AwaitFindById |} =>
          Some (afterFindById p k r s)
      | _ => None
      end
  | ConnectionSettled p r =>
      match tasks s !! p with
      | Some {| t_key := k; t_phase := AwaitConnection _ uri |} =>
          Some (afterCreateConnection p k uri r s)
      | _ => None
      end
  | CollectionSettled p r =>
      match tasks s !! p with
      | Some {| t_key := k; t_phase := AwaitCollection conn rest |} =>
          Some (afterCreateCollection p k conn rest r s)
      | _ => None
      end
  end.

Fixpoint run (s : State) (tr : list Event) : option State :=
  match tr with
  | [] => Some s
  | e :: tr' =>
      match step s e with
      | Some s' => run s' tr'
      | None => None
      end
  end.

Definition reachable (s : State) : Prop := ∃ tr, run init tr = Some s.

(** *** Observations *)

(** How the promise a caller got back from [getTenantConnection] has
    settled, if it has: a returned promise is adopted, anything else
    fulfils the caller's promise at once. *)
Inductive Outcome :=
  | Fulfilled (v : Value)
  | Rejected (err : Err).

Definition outcome (s : State) (v : Value) : option Outcome :=
  match v with
  | Promise p =>
      match tasks s !! p with
      | Some {| t_phase := Done conn |} => Some (Fulfilled (Connection conn))
      | Some {| t_phase := Failed err |} => Some (Rejected err)
      | _ => None
      end
  | _ => Some (Fulfilled v)
  end.

Definition isConnect (k : string) (e : Effect) : bool :=
  match e with
  | CreateConnection k' _ => String.eqb k' k
  | _ => false
  end.

(** Number of calls of [mongoose.createConnection] made on behalf of key [k]. *)
Definition attempts (k : string) (s : State) : nat :=
  length (List.filter (isConnect k) (effects s)).

Definition isFind (k : string) (e : Effect) : bool :=
  match e with
  | FindById k' => String.eqb k' k
  | _ => false
  end.

(** Number of profile lookups made on behalf of key [k]. *)
Definition lookups (k : string) (s : State) : nat :=
  length (List.filter (isFind k) (effects s)).

Definition requestsKey (k : string) (e : Event) : bool :=
  match e with
  | Request userId => String.eqb (toString userId) k
  | _ => false
  end.

(** The results handed out for key [k] among [rs]. *)
Definition resultsFor (k : string) (rs : list (string * Value)) : list Value :=
  snd <$> List.filter (λ r, String.eqb (fst r) k) rs.

Definition inFlight (ph : Phase) : bool :=
  match ph with
  | Done _ | Failed _ => false
  | _ => true
  end.

Definition handleOf (ph : Phase) : option Conn :=
  match ph with
  | AwaitCollection conn _ | Done conn => Some conn
  | _ => None
  end.

#[global] Instance User_eq_dec : EqDecision User.
Proof. solve_decision. Defined.

(** The profile answers given along [tr] are those of the store [db]. *)
Fixpoint answersFrom (db : string → option User) (s : State)
    (tr : list Event) : bool :=
  match tr with
  | [] => true
  | e :: tr' =>
      match step s e with
      | None => true
      | Some s' =>
          match e with
          | FindByIdSettled p (inr user) =>
              match tasks s !! p with
              | Some t => bool_decide (user = db (t_key t))
              | None => true
              end
          | _ => true
          end && answersFrom db s' tr'
      end
  end.

End Machine.

(** *** The invariant of the registry *)

Record wf (s : State) : Prop := {
  (* own entries are never prototype names; a stored promise is that of
     an attempt in flight for this key, a stored handle the result of an
     attempt for this key *)
  wf_own : ∀ k v, connections s !! k = Some v →
    isProtoKey k = false ∧
    match v with
    | Promise p =>
        ∃ ph, tasks s !! p = Some {| t_key := k; t_phase := ph |} ∧
              inFlight ph = true
    | Connection conn =>
        ∃ p, tasks s !! p = Some {| t_key := k; t_phase := Done conn |}
    | ProtoMember _ => False
    end;
  (* an attempt in flight owns the entry of its key *)
  wf_flight : ∀ p k ph, tasks s !! p = Some {| t_key := k; t_phase := ph |} →
    inFlight ph = true → connections s !! k = Some (Promise p);
  (* a finished attempt's handle stays in place *)
  wf_done : ∀ p k conn, tasks s !! p = Some {| t_key := k; t_phase := Done conn |} →
    connections s !! k = Some (Connection conn);
  (* handles are numbered in order of creation, no number twice *)
  wf_fresh : ∀ p t conn, tasks s !! p = Some t →
    handleOf (t_phase t) = Some conn → conn_id conn < opened s;
  wf_uniq : ∀ p q tp tq cp cq, tasks s !! p = Some tp → tasks s !! q = Some tq →
    handleOf (t_phase tp) = Some cp → handleOf (t_phase tq) = Some cq →
    conn_id cp = conn_id cq → p = q
}.

(** The key an event is about: the one requested, or the one of the
    attempt that is resumed. *)
Definition eventKey (s : State) (e : Event) : option string :=
  match e with
  | Request userId => Some (toString userId)
  | FindByIdSettled p _ | ConnectionSettled p _ | CollectionSettled p _ =>
      t_key <$> tasks s !! p
  end.

(** The same event with the caller's argument replaced by
    [userId.toString()]. *)
Definition coerce (e : Event) : Event :=
  match e with
  | Request userId => Request (IdString (toString userId))
  | _ => e
  end.

(** Every connector call recorded in [s] went to the database named by
    the profile store [db] for the calling key. *)
Definition connectsTo (cfg : Config) (db : string → option User) (s : State) : Prop :=
  ∀ k uri, In (CreateConnection k uri) (effects s) →
    ∃ url, mongoUrl cfg = Some url ∧
           uri = setPathname url ("/" +:+ Resolver.dbName k (db k)).

(** Model [m] has been registered on [conn] and its collection asked for. *)
Definition provisioned (cfg : Config) (s : State) (conn : Conn) (m : string) : Prop :=
  In (Model conn m) (effects s) ∧
  In (CreateCollection conn (collectionName cfg m)) (effects s).

(** How far the loop of lines 42-48 has come in each attempt. *)
Definition registering (cfg : Config) (s : State) : Prop :=
  ∀ p k ph, tasks s !! p = Some {| t_key := k; t_phase := ph |} →
    match ph with
    | AwaitCollection conn rest =>
        ∃ done, schemaNames cfg = done ++ rest ∧
                Forall (provisioned cfg s conn) done
    | Done conn => Forall (provisioned cfg s conn) (schemaNames cfg)
    | _ => True
    end.

(** The attempt an event resumes. *)
Definition eventTask (e : Event) : option nat :=
  match e with
  | Request _ => None
  | FindByIdSettled p _ | ConnectionSettled p _ | CollectionSettled p _ => Some p
  end.

(** The phases an attempt can go through, one resumption at a time. *)
Definition next (ph ph' : Phase) : bool :=
  match ph, ph' with
  | AwaitFindById, (AwaitConnection _ _ | Failed _) => true
  | (AwaitConnection _ _ | AwaitCollection _ _),
    (AwaitCollection _ _ | Done _ | Failed _) => true
  | _, _ => false
  end.

(** Connector calls made by a resumption. *)
Definition connectsIn (ph ph' : Phase) : nat :=
  match ph, ph' with
  | AwaitFindById, AwaitConnection _ _ => 1
  | _, _ => 0
  end.

(** What a caller for the key of attempt [p] can have been handed while
    the attempt is in phase [ph]. *)
Definition servedBy (p : nat) (ph : Phase) (v : Value) : Prop :=
  v = Promise p ∨ ∃ conn, ph = Done conn ∧ v = Connection conn.

(** The course of attempt [p] for key [k], started when [n] connector
    calls had been made for [k] and the results [rs] handed out. *)
Definition flight (k : string) (p n : nat) (rs : list (string * Value))
    (s : State) : Prop :=
  ∃ ph new,
    tasks s !! p = Some {| t_key := k; t_phase := ph |} ∧
    returned s = new ++ rs ∧
    match ph with
    | Failed _ => True
    | AwaitFindById =>
        attempts k s = n ∧ Forall (servedBy p ph) (resultsFor k new)
    | _ =>
        attempts k s = S n ∧ Forall (servedBy p ph) (resultsFor k new)
    end.

End Registry.

(** ** Concrete runs *)

Module Scenario.

Import Registry.

Definition baseUrl : Url :=
  {| url_scheme := "mongodb";
     url_authority := Some "farm:secret@db.internal:27017";
     url_path := Segments [""];
     url_search := "?authSource=admin"; url_hash := "" |}.

Definition cfg : Config :=
  {| mongoUrl := Some baseUrl;
     schemaNames := ["Cow"; "MilkRecord"];
     modelThrows := λ _, None;
     pluralize := None |}.

(** Another deployment: another cluster, one schema, mongoose's own
    pluralizer (here, appending an s). *)
Definition otherUrl : Url :=
  {| url_scheme := "mongodb"; url_authority := Some "10.0.0.7:27017";
     url_path := Segments ["test"]; url_search := ""; url_hash := "" |}.

Definition otherCfg : Config :=
  {| mongoUrl := Some otherUrl;
     schemaNames := ["Cow"];
     modelThrows := λ _, None;
     pluralize := Some (λ m, toLowerCase m +:+ "s") |}.

Definition noProfile : Err + option User := inr None.

Definition profile (name : option string) : Err + option User :=
  inr (Some {| tenantDbName := name |}).

(** One attempt carried through without an error, for promise [p]. *)
Definition succeed (p : nat) (r : Err + option User) : list Event :=
  [ FindByIdSettled p r; ConnectionSettled p None;
    CollectionSettled p None; CollectionSettled p None ].

(** Three requests for the new user [u123] arrive before anything settles. *)
Definition race : list Event :=
  [ Request (IdString "u123"); Request (IdObject "u123") ] ++
  [ FindByIdSettled 0 noProfile; Request (IdString "u123");
    ConnectionSettled 0 None; CollectionSettled 0 None;
    CollectionSettled 0 None ].

(** User [a] has the stored name [b]; user [b] has none. *)
Definition twoPaths : list Event :=
  Request (IdString "a") :: succeed 0 (profile (Some "b")) ++
  Request (IdString "b") :: succeed 1 (profile None).

(** The connector refuses the first attempt for [u7]. *)
Definition refused : list Event :=
  [ Request (IdString "u7"); Request (IdString "u7");
    FindByIdSettled 0 noProfile ].

Definition refusal : Event :=
  ConnectionSettled 0 (Some (OtherError "connect ETIMEDOUT")).

(** The second collection cannot be created, for a reason other than its
    being there already. *)
Definition denied : list Event :=
  [ Request (IdString "u5"); FindByIdSettled 0 noProfile;
    ConnectionSettled 0 None; CollectionSettled 0 None;
    CollectionSettled 0 (Some (OtherError "not authorized on AI_FARM_user_u5")) ].

Definition profiles (idStr : string) : option User :=
  if String.eqb idStr "a" then Some {| tenantDbName := Some "b" |} else None.

End Scenario.

(** ** Further observations on the registry *)

Module Ledger.

Import Registry.

(** The result [v] handed out for key [k] comes from an attempt made for
    [k], or is the inherited member of that name. *)
Definition belongs (s : State) (k : string) (v : Value) : Prop :=
  match v with
  | Promise p => ∃ ph, tasks s !! p = Some {| t_key := k; t_phase := ph |}
  | Connection conn =>
      ∃ p, tasks s !! p = Some {| t_key := k; t_phase := Done conn |}
  | ProtoMember name => name = k ∧ isProtoKey k = true
  end.

(** The address every attempt is heading for, or has reached, is that of
    its own key's database in the profile store [db]. *)
Definition addressed (cfg : Config) (db : string → option User) (s : State) : Prop :=
  ∀ p k ph, tasks s !! p = Some {| t_key := k; t_phase := ph |} →
    match ph with
    | AwaitConnection dbName uri =>
        ∃ url, mongoUrl cfg = Some url ∧
               dbName = Resolver.dbName k (db k) ∧
               uri = setPathname url ("/" +:+ dbName)
    | AwaitCollection conn _ | Done conn =>
        ∃ url, mongoUrl cfg = Some url ∧
               conn_uri conn = setPathname url ("/" +:+ Resolver.dbName k (db k))
    | _ => True
    end.

(** No event of [tr], run from [s], is about key [k]. *)
Fixpoint avoids (cfg : Config) (k : string) (s : State) (tr : list Event) : bool :=
  match tr with
  | [] => true
  | e :: tr' =>
      negb (bool_decide (eventKey s e = Some k)) &&
      match step cfg s e with
      | Some s' => avoids cfg k s' tr'
      | None => true
      end
  end.

(** The number of answers an attempt in phase [ph] can still wait for. *)
Definition stepsLeft (cfg : Config) (ph : Phase) : nat :=
  match ph with
  | AwaitFindById => length (schemaNames cfg) + 2
  | AwaitConnection _ _ => length (schemaNames cfg) + 1
  | AwaitCollection _ rest => length rest + 1
  | Done _ | Failed _ => 0
  end.

(** The same for promise [p], also before its attempt has started. *)
Definition budget (cfg : Config) (s : State) (p : nat) : nat :=
  match tasks s !! p with
  | Some t => stepsLeft cfg (t_phase t)
  | None => length (schemaNames cfg) + 2
  end.

(** How often attempt [p] is resumed along [tr]. *)
Definition resumptions (p : nat) (tr : list Event) : nat :=
  length (List.filter (λ e, bool_decide (eventTask e = Some p)) tr).

(** An answer of the right kind for an attempt in phase [ph]. *)
Definition answerFor (p : nat) (ph : Phase) : option Event :=
  match ph with
  | AwaitFindById => Some (FindByIdSettled p (inr None))
  | AwaitConnection _ _ => Some (ConnectionSettled p None)
  | AwaitCollection _ _ => Some (CollectionSettled p None)
  | Done _ | Failed _ => None
  end.

Definition forKey (k : string) (t : Task) : bool := String.eqb (t_key t) k.

Definition awaitingProfile (k : string) (t : Task) : bool :=
  forKey k t && match t_phase t with AwaitFindById => true | _ => false end.

(** Attempts ever started for key [k]. *)
Definition started (k : string) (s : State) : nat :=
  length (List.filter (forKey k) (tasks s)).

(** Attempts for key [k] whose profile lookup has not answered yet. *)
Definition waiting (k : string) (s : State) : nat :=
  length (List.filter (awaitingProfile k) (tasks s)).

Definition isConnectEffect (e : Effect) : bool :=
  match e with CreateConnection _ _ => true | _ => false end.

(** With no parsable address nothing gets past the profile lookup. *)
Definition grounded (s : State) : Prop :=
  opened s = 0 ∧
  Forall (λ e, isConnectEffect e = false) (effects s) ∧
  ∀ p t, tasks s !! p = Some t →
    match t_phase t with
    | AwaitFindById | Failed _ => True
    | _ => False
    end.

(** Model [m] is still ahead of every attempt that is registering. *)
Definition blockedBy (m : string) (s : State) : Prop :=
  ∀ p t, tasks s !! p = Some t →
    match t_phase t with
    | AwaitCollection _ rest => In m rest
    | Done _ => False
    | _ => True
    end.

End Ledger.

Module Cases.

Import Registry.

(** [MONGO_URI] is missing or malformed. *)
Definition noUri : Config :=
  {| mongoUrl := None; schemaNames := ["Cow"];
     modelThrows := λ _, None; pluralize := None |}.

(** The second schema definition is not accepted by [conn.model]. *)
Definition badSchema : Config :=
  {| mongoUrl := Some Scenario.baseUrl;
     schemaNames := ["Cow"; "Broken"; "Staff"];
     modelThrows := λ m, if String.eqb m "Broken"
                         then Some (OtherError "invalid schema") else None;
     pluralize := None |}.

(** Every user has a profile; only [a] has a stored name. *)
Definition store (idStr : string) : option User :=
  Some {| tenantDbName := if String.eqb idStr "a" then Some "b" else None |}.

(** Two tenants set up side by side. *)
Definition sideBySide : list Event :=
  [ Request (IdString "u1"); Request (IdString "u2");
    FindByIdSettled 1 Scenario.noProfile; FindByIdSettled 0 Scenario.noProfile;
    ConnectionSettled 0 None; ConnectionSettled 1 None;
    CollectionSettled 1 None; CollectionSettled 0 None;
    CollectionSettled 0 None; CollectionSettled 1 None;
    Request (IdString "u2"); Request (IdObject "u1") ].

(** What happens for [u2] while [u1] is being set up. *)
Definition aside : list Event :=
  [ Request (IdString "u2"); FindByIdSettled 1 Scenario.noProfile;
    ConnectionSettled 1 (Some (OtherError "auth failed"));
    Request (IdString "u2") ].

End Cases.

(** * The dashboard's list bookkeeping

    The pure parts of three React components: what they compute from the
    lists they hold, leaving rendering and transport aside. *)

(** ** Heat alerts (the [HeatAlerts] component) *)

Module Alerts.

Record CowInfo := { name : string; tagNumber : string }.

Record HeatAlert := {
  id : string;
  cowId : string;
  alertType : string;
  severity : string;
  title : string;
  message : string;
  isRead : bool;
  isDismissed : bool;
  sensorType : option string;
  optimalBreedingStart : option string;
  optimalBreedingEnd : option string;
  createdAt : string;
  cowInfo : option CowInfo
}.

(** [{ ...a, isRead: true }] *)
Definition withRead (a : HeatAlert) : HeatAlert :=
  {| id := id a; cowId := cowId a; alertType := alertType a;
     severity := severity a; title := title a; message := message a;
     isRead := true; isDismissed := isDismissed a;
     sensorType := sensorType a;
     optimalBreedingStart := optimalBreedingStart a;
     optimalBreedingEnd := optimalBreedingEnd a;
     createdAt := createdAt a; cowInfo := cowInfo a |}.

(** [alerts.filter(a => !a.isRead).length], the number on the badge *)
Definition unread (alerts : list HeatAlert) : nat :=
  length (List.filter (λ a, negb (isRead a)) alerts).

(** [alerts.map(a => (a.id === alertId ? { ...a, isRead: true } : a))] *)
Definition markRead (alertId : string) (alerts : list HeatAlert) : list HeatAlert :=
  List.map (λ a, if String.eqb (id a) alertId then withRead a else a) alerts.

(** [alerts.filter(a => a.id !== alertId)] *)
Definition without (alertId : string) (alerts : list HeatAlert) : list HeatAlert :=
  List.filter (λ a, negb (String.eqb (id a) alertId)) alerts.

(** The component's state as far as these handlers go: the list, and the
    last count passed to [onAlertCount]. *)
Record View := { alerts : list HeatAlert; badge : option nat }.

(** [markAsRead]: when the request fails nothing is touched; otherwise
    the list is updated from the state at hand ([prev]) and the count is
    taken from the list the handler closed over ([alerts]). *)
Definition markAsRead (requestOk : bool) (alertId : string)
    (closedOver : list HeatAlert) (v : View) : View :=
  if requestOk then
    {| alerts := markRead alertId (alerts v);
       badge := Some (unread (markRead alertId closedOver)) |}
  else v.

(** [dismissAlert]: list and count both come from the list closed over. *)
Definition dismissAlert (requestOk : bool) (alertId : string)
    (closedOver : list HeatAlert) (v : View) : View :=
  if requestOk then
    {| alerts := without alertId closedOver;
       badge := Some (unread (without alertId closedOver)) |}
  else v.

(** Unread alerts carrying the id [alertId]. *)
Definition unreadWith (alertId : string) (alerts : list HeatAlert) : nat :=
  length (List.filter (λ a, String.eqb (id a) alertId && negb (isRead a)) alerts).

End Alerts.

(** ** Cow status names (the [CowManagement] page) *)

Module Herd.

(** [s.replace(' ', '_')]: a string pattern replaces the first match only *)
Fixpoint replaceFirstSpace (s : string) : string :=
  match s with
  | EmptyString => EmptyString
  | String c r =>
      if Ascii.eqb c " "%char then String "_"%char r
      else String c (replaceFirstSpace r)
  end.

(** line 128: [cow.status.toLowerCase().replace(' ', '_')], for status
    names in ASCII *)
Definition normalizeStatus (status : string) : string :=
  replaceFirstSpace (Registry.toLowerCase status).

(** lines 159-176 *)
Definition formatStatusForBackend (status : string) : string :=
  if String.eqb status "in_heat" then "In Heat"
  else if String.eqb status "healthy" then "Healthy"
  else if String.eqb status "sick" then "Sick"
  else if String.eqb status "pregnant" then "Pregnant"
  else if String.eqb status "dry" then "Dry"
  else if String.eqb status "lactating" then "Lactating"
  else "Healthy".

Definition backendStatuses : list string :=
  ["In Heat"; "Healthy"; "Sick"; "Pregnant"; "Dry"; "Lactating"].

End Herd.

(** ** Attendance cards (the [StaffAttendance] page) *)

Module Attendance.

Record StaffRef := { staffName : string; staffRole : option string }.

Record AttendanceRecord := {
  id : string;
  staff_id : string;
  check_in : string;
  check_out : option string;
  biometric_type : option string;
  status : string;
  staff : option StaffRef
}.

(** Truthiness of [a.check_out]: null and the empty string are falsy. *)
Definition checkedOut (a : AttendanceRecord) : bool :=
  match check_out a with
  | Some t => negb (String.eqb t "")
  | None => false
  end.

(** line 244 *)
Definition presentCount (attendance : list AttendanceRecord) : nat :=
  length (List.filter (λ a, negb (checkedOut a)) attendance).

(** line 245 *)
Definition checkedOutCount (attendance : list AttendanceRecord) : nat :=
  length (List.filter checkedOut attendance).

(** line 310: [Math.max(0, staff.length - presentCount - checkedOutCount)] *)
Definition notCheckedIn (staffLength : nat) (attendance : list AttendanceRecord) : Z :=
  Z.max 0 (Z.of_nat staffLength - Z.of_nat (presentCount attendance)
           - Z.of_nat (checkedOutCount attendance)).

End Attendance.

(** * Properties *)

Import Registry.

(** ** Facts about name resolution *)

Lemma prefix_append (p s : string) : String.prefix p (p +:+ s) = true.
Proof.
  induction p as [|a p IH]; simpl.
  - by destruct s.
  - destruct (Ascii.ascii_dec a a) as [_|Hne]; [exact IH | by destruct Hne].
Qed.

Lemma normalize_prefixed (s : string) :
  Resolver.normalize (Resolver.PREFIX +:+ s) = Resolver.PREFIX +:+ s.
Proof. unfold Resolver.normalize, Resolver.startsWith. by rewrite prefix_append. Qed.

Lemma normalize_bare (s : string) :
  Resolver.startsWith s Resolver.PREFIX = false →
  Resolver.normalize s = Resolver.PREFIX +:+ s.
Proof. unfold Resolver.normalize. by intros ->. Qed.

Lemma normalize_idempotent (s : string) :
  Resolver.normalize (Resolver.normalize s) = Resolver.normalize s.
Proof.
  destruct (Resolver.startsWith s Resolver.PREFIX) eqn:E.
  - unfold Resolver.normalize. by rewrite !E.
  - rewrite (normalize_bare s E). apply normalize_prefixed.
Qed.

Lemma dbName_fallback (idStr : string) (user : option User) :
  Resolver.storedName user = None →
  Resolver.dbName idStr user = Resolver.PREFIX +:+ idStr.
Proof.
  unfold Resolver.dbName, Resolver.dbIdentifier. intros ->.
  apply normalize_prefixed.
Qed.

Lemma dbName_stored (idStr : string) (user : option User) (n : string) :
  Resolver.storedName user = Some n →
  Resolver.dbName idStr user = Resolver.normalize n.
Proof. unfold Resolver.dbName, Resolver.dbIdentifier. by intros ->. Qed.

Lemma storedName_explicit (n : string) :
  n ≠ "" → Resolver.storedName (Some {| tenantDbName := Some n |}) = Some n.
Proof.
  intros Hn. simpl. destruct (String.eqb n "") eqn:E; [|done].
  by apply String.eqb_eq in E.
Qed.

(** ** The invariant holds in every reachable state *)

Lemma wf_init : wf init.
Proof.
  split; simpl.
  - intros k v H. by rewrite lookup_empty in H.
  - by intros [|p] k ph H.
  - by intros [|p] k c H.
  - by intros [|p] t c H.
  - by intros [|p] q tp tq cp cq H.
Qed.

Lemma property_None (m : gmap string Value) (k : string) :
  property m k = None ↔ m !! k = None ∧ isProtoKey k = false.
Proof.
  unfold property. destruct (m !! k); [by split; [|intros []]|].
  destruct (isProtoKey k); by split; [|intros []].
Qed.

Lemma property_own (m : gmap string Value) (k : string) (v : Value) :
  m !! k = Some v → property m k = Some v.
Proof. unfold property. by intros ->. Qed.

(** A task moves on: every transition of an attempt in flight is an
    instance of this. *)
Lemma wf_update (s : State) (p : nat) (k : string) (ph ph' : Phase)
    (conns' : gmap string Value) (rs : list (string * Value))
    (es : list Effect) (n' : nat) :
  wf s →
  tasks s !! p = Some {| t_key := k; t_phase := ph |} →
  inFlight ph = true →
  opened s ≤ n' →
  (∀ c, handleOf ph' = Some c →
        handleOf ph = Some c ∨ (conn_id c = opened s ∧ opened s < n')) →
  (inFlight ph' = true ∧ conns' = connections s) ∨
  (∃ c, ph' = Done c ∧ conns' = <[k := Connection c]> (connections s)) ∨
  (∃ e, ph' = Failed e ∧ conns' = delete k (connections s)) →
  wf {| connections := conns';
        tasks := <[p := {| t_key := k; t_phase := ph' |}]> (tasks s);
        returned := rs; effects := es; opened := n' |}.
Proof.
  intros W Hp Hfl Hn Hh Hc.
  assert (Hlen : p < length (tasks s)) by eauto using lookup_lt_Some.
  assert (Hown : connections s !! k = Some (Promise p)) by eauto using wf_flight.
  assert (Hother : ∀ q k0 ph0, q ≠ p →
            tasks s !! q = Some {| t_key := k0; t_phase := ph0 |} →
            inFlight ph0 = true → k0 ≠ k).
  { intros q k0 ph0 Hq Hq' Hf ->.
    pose proof (wf_flight s W _ _ _ Hq' Hf) as E. congruence. }
  assert (Hdone : ∀ q k0 c0,
            tasks s !! q = Some {| t_key := k0; t_phase := Done c0 |} → k0 ≠ k).
  { intros q k0 c0 Hq ->.
    pose proof (wf_done s W _ _ _ Hq) as E. congruence. }
  split; simpl.
  - (* wf_own *)
    intros k0 v Hv.
    assert (Hold : k0 ≠ k → connections s !! k0 = Some v → 
              isProtoKey k0 = false ∧
              match v with
              | Promise p0 => ∃ ph0,
                  <[p := {| t_key := k; t_phase := ph' |}]> (tasks s) !! p0
                    = Some {| t_key := k0; t_phase := ph0 |} ∧ inFlight ph0 = true
              | Connection conn => ∃ p0,
                  <[p := {| t_key := k; t_phase := ph' |}]> (tasks s) !! p0
                    = Some {| t_key := k0; t_phase := Done conn |}
              | ProtoMember _ => False
              end).
    { intros Hk Hv0. destruct (wf_own s W _ _ Hv0) as [Hpk Hm]. split; [done|].
      destruct v as [p0|c0|]; [| |done].
      - destruct Hm as (ph0 & Hp0 & Hf0). exists ph0. split; [|done].
        rewrite list_lookup_insert_ne; [done|]. intros ->. congruence.
      - destruct Hm as (p0 & Hp0). exists p0.
        rewrite list_lookup_insert_ne; [done|]. intros ->. congruence. }
    destruct (decide (k0 = k)) as [->|Hk].
    + destruct (wf_own s W _ _ Hown) as [Hpk _]. split; [done|].
      destruct Hc as [[Hf' ->]|[(c & -> & ->)|(e & -> & ->)]].
      * rewrite Hown in Hv. injection Hv as <-. exists ph'.
        by rewrite list_lookup_insert_eq.
      * rewrite lookup_insert_eq in Hv. injection Hv as <-. exists p.
        by rewrite list_lookup_insert_eq.
      * by rewrite lookup_delete_eq in Hv.
    + apply Hold; [done|].
      destruct Hc as [[Hf' ->]|[(c & -> & ->)|(e & -> & ->)]]; [done| |].
      * by rewrite lookup_insert_ne in Hv.
      * by rewrite lookup_delete_ne in Hv.
  - (* wf_flight *)
    intros q k0 ph0 Hq Hf0.
    apply list_lookup_insert_Some in Hq as [(-> & [= <- <-] & _)|[Hne Hq]].
    + destruct Hc as [[_ ->]|[(c & -> & _)|(e & -> & _)]]; done.
    + pose proof (Hother _ _ _ (not_eq_sym Hne) Hq Hf0) as Hk.
      pose proof (wf_flight s W _ _ _ Hq Hf0) as E.
      destruct Hc as [[_ ->]|[(c & _ & ->)|(e & _ & ->)]]; [done| |].
      * by rewrite lookup_insert_ne.
      * by rewrite lookup_delete_ne.
  - (* wf_done *)
    intros q k0 c0 Hq.
    apply list_lookup_insert_Some in Hq as [(-> & [= <- ->] & _)|[Hne Hq]].
    + destruct Hc as [[Hf' _]|[(c & Hc & ->)|(e & [=] & _)]]; [done|].
      injection Hc as <-. by rewrite lookup_insert_eq.
    + pose proof (Hdone _ _ _ Hq) as Hk.
      pose proof (wf_done s W _ _ _ Hq) as E.
      destruct Hc as [[_ ->]|[(c & _ & ->)|(e & _ & ->)]]; [done| |].
      * by rewrite lookup_insert_ne.
      * by rewrite lookup_delete_ne.
  - (* wf_fresh *)
    intros q t c Hq Hc0.
    apply list_lookup_insert_Some in Hq as [(-> & <- & _)|[Hne Hq]].
    + destruct (Hh _ Hc0) as [Hprev|[E ?]]; [|lia].
      pose proof (wf_fresh s W _ _ _ Hp Hprev). lia.
    + pose proof (wf_fresh s W _ _ _ Hq Hc0). lia.
  - (* wf_uniq *)
    intros q1 q2 t1 t2 c1 c2 H1 H2 Hc1 Hc2 Hid.
    apply list_lookup_insert_Some in H1 as [(-> & <- & _)|[Hne1 H1]];
      apply list_lookup_insert_Some in H2 as [(-> & <- & _)|[Hne2 H2]];
      [done| | |by eapply (wf_uniq s W)].
    + destruct (Hh _ Hc1) as [Hprev|[E ?]].
      * by eapply (wf_uniq s W).
      * pose proof (wf_fresh s W _ _ _ H2 Hc2). lia.
    + destruct (Hh _ Hc2) as [Hprev|[E ?]].
      * by eapply (wf_uniq s W).
      * pose proof (wf_fresh s W _ _ _ H1 Hc1). lia.
Qed.

Lemma wf_getTenantConnection (userId : UserId) (s : State) :
  wf s → wf (getTenantConnection userId s).
Proof.
  intros W. unfold getTenantConnection.
  destruct (property (connections s) (toString userId)) as [v|] eqn:E.
  { destruct W. by split. }
  apply property_None in E as [Hnone Hproto].
  set (k := toString userId) in *.
  assert (Hold : ∀ q t, tasks s !! q = Some t →
            (tasks s ++ [{| t_key := k; t_phase := AwaitFindById |}]) !! q = Some t).
  { intros q t Hq. by apply lookup_app_l_Some. }
  split; simpl.
  - intros k0 v Hv. apply lookup_insert_Some in Hv as [[<- <-]|[Hne Hv]].
    + split; [done|]. exists AwaitFindById. split; [|done].
      by rewrite lookup_app_r, Nat.sub_diag.
    + destruct (wf_own s W _ _ Hv) as [Hpk Hm]. split; [done|].
      destruct v as [p0|c0|]; [| |done].
      * destruct Hm as (ph0 & Hp0 & Hf0). eauto.
      * destruct Hm as (p0 & Hp0). eauto.
  - intros q k0 ph0 Hq Hf0.
    apply lookup_snoc_Some in Hq as [[_ Hq]|[-> [= <- <-]]].
    + pose proof (wf_flight s W _ _ _ Hq Hf0) as E.
      rewrite lookup_insert_ne; [done|]. intros ->. congruence.
    + by rewrite lookup_insert_eq.
  - intros q k0 c0 Hq.
    apply lookup_snoc_Some in Hq as [[_ Hq]|[-> [=]]].
    pose proof (wf_done s W _ _ _ Hq) as E.
    rewrite lookup_insert_ne; [done|]. intros ->. congruence.
  - intros q t c Hq Hc.
    apply lookup_snoc_Some in Hq as [[_ Hq]|[-> <-]]; [|done].
    by eapply (wf_fresh s W).
  - intros q1 q2 t1 t2 c1 c2 H1 H2 Hc1 Hc2 Hid.
    apply lookup_snoc_Some in H1 as [[_ H1]|[-> <-]]; [|done].
    apply lookup_snoc_Some in H2 as [[_ H2]|[-> <-]]; [|done].
    by eapply (wf_uniq s W).
Qed.

Section Invariant.

Context (cfg : Config).

Lemma wf_registerSchemas (s0 s : State) (p : nat) (k : string) (ph : Phase)
    (conn : Conn) (names : list string) :
  wf s0 →
  tasks s0 !! p = Some {| t_key := k; t_phase := ph |} →
  inFlight ph = true →
  connections s = connections s0 → tasks s = tasks s0 →
  opened s0 ≤ opened s →
  handleOf ph = Some conn ∨ (conn_id conn = opened s0 ∧ opened s0 < opened s) →
  wf (registerSchemas cfg p k conn names s).
Proof.
  intros W Hp Hf Hc Ht Hn Hh.
  unfold registerSchemas, onError, setTask.
  destruct names as [|m rest]; [|destruct (modelThrows cfg m) as [err|]];
    simpl; rewrite Hc, Ht; apply (wf_update s0 p k ph); try done.
  - intros c [= <-]. done.
  - right; left. eauto.
  - right; right. eauto.
  - intros c [= <-]. done.
  - by left.
Qed.

Lemma wf_onError (s0 s : State) (p : nat) (k : string) (ph : Phase) (err : Err) :
  wf s0 →
  tasks s0 !! p = Some {| t_key := k; t_phase := ph |} →
  inFlight ph = true →
  connections s = connections s0 → tasks s = tasks s0 →
  opened s0 ≤ opened s →
  wf (onError p k err s).
Proof.
  intros W Hp Hf Hc Ht Hn. unfold onError, setTask. simpl. rewrite Hc, Ht.
  apply (wf_update s0 p k ph); try done. right; right. eauto.
Qed.

Lemma wf_step (s s' : State) (e : Event) :
  wf s → step cfg s e = Some s' → wf s'.
Proof.
  intros W Hs. destruct e as [userId|p r|p r|p r]; simpl in Hs.
  - injection Hs as <-. by apply wf_getTenantConnection.
  - destruct (tasks s !! p) as [[k []]|] eqn:Hp; try done. injection Hs as <-.
    unfold afterFindById. destruct r as [err|user].
    { by eapply wf_onError. }
    destruct (mongoUrl cfg) as [url|]; [|by eapply wf_onError].
    unfold setTask; simpl. apply (wf_update s p k AwaitFindById); try done.
    by left.
  - destruct (tasks s !! p) as [[k []]|] eqn:Hp; try done. injection Hs as <-.
    unfold afterCreateConnection. destruct r as [err|].
    { by eapply wf_onError. }
    eapply wf_registerSchemas; try done; simpl; [lia|]. right. split; [done|lia].
  - destruct (tasks s !! p) as [[k []]|] eqn:Hp; try done. injection Hs as <-.
    unfold afterCreateCollection.
    eapply wf_registerSchemas; try done. by left.
Qed.

Lemma wf_run (tr : list Event) (s s' : State) :
  wf s → run cfg s tr = Some s' → wf s'.
Proof.
  revert s. induction tr as [|e tr IH]; intros s W Hr; simpl in Hr.
  - by injection Hr as <-.
  - destruct (step cfg s e) as [s1|] eqn:Hs; [|done].
    eauto using wf_step.
Qed.

Lemma wf_reachable (s : State) : reachable cfg s → wf s.
Proof. intros [tr Hr]. eapply wf_run; [apply wf_init|done]. Qed.

Lemma run_app (tr1 tr2 : list Event) (s : State) :
  run cfg s (tr1 ++ tr2) =
  match run cfg s tr1 with Some s1 => run cfg s1 tr2 | None => None end.
Proof.
  revert s. induction tr1 as [|e tr1 IH]; intros s; simpl; [done|].
  destruct (step cfg s e); [apply IH|done].
Qed.

Lemma reachable_run (tr : list Event) (s s' : State) :
  reachable cfg s → run cfg s tr = Some s' → reachable cfg s'.
Proof.
  intros [tr0 H0] Hr. exists (tr0 ++ tr). by rewrite run_app, H0.
Qed.

End Invariant.

(** ** Name resolution *)

(** C4. An explicit stored name is used after prefix normalization;
    without one (absent field, or the empty string, which the code's test
    treats alike) the name is the prefix followed by the user id; user
    [u123] with no stored name resolves to [AI_FARM_user_u123]. *)
Theorem name_resolution_precedence (idStr n : string) :
  (n ≠ "" →
   Resolver.dbName idStr (Some {| tenantDbName := Some n |})
     = Resolver.normalize n) ∧
  Resolver.dbName idStr (Some {| tenantDbName := None |})
    = Resolver.PREFIX +:+ idStr ∧
  Resolver.dbName idStr (Some {| tenantDbName := Some "" |})
    = Resolver.PREFIX +:+ idStr ∧
  Resolver.dbName "u123" (Some {| tenantDbName := None |}) = "AI_FARM_user_u123".
Proof.
  repeat split.
  - intros Hn. apply dbName_stored. by apply storedName_explicit.
  - by apply dbName_fallback.
  - by apply dbName_fallback.
Qed.

Lemma name_resolution_precedence_witness :
  "tenant_blue" ≠ "" ∧
  Resolver.dbName "u1" (Some {| tenantDbName := Some "tenant_blue" |})
    = "AI_FARM_user_tenant_blue".
Proof.
  split; [done|].
  apply (proj1 (name_resolution_precedence "u1" "tenant_blue")). done.
Defined.

(** C7, as stated, fails: a stored name that already begins with the
    prefix is kept, so prefixing it once more gives another database; and
    the empty name is no name at all. *)
Lemma prefix_equivalence_counterexample :
  Resolver.dbName "u1" (Some {| tenantDbName := Some "AI_FARM_user_x" |})
    ≠ Resolver.dbName "u1"
        (Some {| tenantDbName := Some ("AI_FARM_user_" +:+ "AI_FARM_user_x") |}) ∧
  Resolver.dbName "u1" (Some {| tenantDbName := Some "" |})
    ≠ Resolver.dbName "u1" (Some {| tenantDbName := Some ("AI_FARM_user_" +:+ "") |}).
Proof. split; vm_compute; discriminate. Qed.

(** C7, amended. For a non-empty name [s] that does not itself begin with
    the prefix, the bare and the prefixed stored name resolve to the same
    database, [AI_FARM_user_] followed by [s]. *)
Theorem prefix_equivalence_bare (idStr s : string) :
  s ≠ "" →
  Resolver.startsWith s Resolver.PREFIX = false →
  Resolver.dbName idStr (Some {| tenantDbName := Some s |})
    = Resolver.dbName idStr (Some {| tenantDbName := Some (Resolver.PREFIX +:+ s) |}) ∧
  Resolver.dbName idStr (Some {| tenantDbName := Some s |}) = Resolver.PREFIX +:+ s.
Proof.
  intros Hs Hbare.
  rewrite (dbName_stored idStr _ s) by by apply storedName_explicit.
  rewrite (dbName_stored idStr _ (Resolver.PREFIX +:+ s))
    by by apply storedName_explicit.
  by rewrite normalize_prefixed, normalize_bare.
Qed.

Lemma prefix_equivalence_bare_witness :
  Resolver.dbName "u1" (Some {| tenantDbName := Some "greenfarm" |})
    = Resolver.dbName "u1" (Some {| tenantDbName := Some "AI_FARM_user_greenfarm" |}).
Proof.
  apply (prefix_equivalence_bare "u1" "greenfarm"); [done | reflexivity].
Defined.

(** ** The shape of a step *)

Section Steps.

Context (cfg : Config).

Lemma attempts_cons (k : string) (e : Effect) (s s' : State) :
  effects s' = e :: effects s →
  attempts k s' = (if isConnect k e then 1 else 0) + attempts k s.
Proof. unfold attempts. intros ->. simpl. by destruct (isConnect k e). Qed.

Lemma lookups_cons (k : string) (e : Effect) (s s' : State) :
  effects s' = e :: effects s →
  lookups k s' = (if isFind k e then 1 else 0) + lookups k s.
Proof. unfold lookups. intros ->. simpl. by destruct (isFind k e). Qed.

(** A request that finds something under its key only hands it out. *)
Lemma request_hit (userId : UserId) (s : State) (v : Value) :
  property (connections s) (toString userId) = Some v →
  getTenantConnection userId s =
    {| connections := connections s; tasks := tasks s;
       returned := (toString userId, v) :: returned s;
       effects := effects s; opened := opened s |}.
Proof. unfold getTenantConnection. by intros ->. Qed.

(** A request that finds nothing starts an attempt and stores its promise. *)
Lemma request_miss (userId : UserId) (s : State) :
  property (connections s) (toString userId) = None →
  getTenantConnection userId s =
    {| connections := <[toString userId := Promise (length (tasks s))]> (connections s);
       tasks := tasks s ++ [{| t_key := toString userId; t_phase := AwaitFindById |}];
       returned := (toString userId, Promise (length (tasks s))) :: returned s;
       effects := FindById (toString userId) :: effects s;
       opened := opened s |}.
Proof. unfold getTenantConnection. by intros ->. Qed.

Lemma request_attempts (userId : UserId) (s : State) (k : string) :
  attempts k (getTenantConnection userId s) = attempts k s.
Proof.
  unfold getTenantConnection.
  by destruct (property (connections s) (toString userId)).
Qed.

(** Every resumption of an attempt, whatever the collaborator answered. *)
Lemma settle_shape (s s' : State) (e : Event) (p : nat) :
  eventTask e = Some p → step cfg s e = Some s' →
  ∃ k ph ph',
    tasks s !! p = Some {| t_key := k; t_phase := ph |} ∧
    inFlight ph = true ∧ next ph ph' = true ∧
    tasks s' = <[p := {| t_key := k; t_phase := ph' |}]> (tasks s) ∧
    returned s' = returned s ∧
    ((inFlight ph' = true ∧ connections s' = connections s) ∨
     (∃ c, ph' = Done c ∧ connections s' = <[k := Connection c]> (connections s)) ∨
     (∃ err, ph' = Failed err ∧ connections s' = delete k (connections s))) ∧
    (∀ k', attempts k' s' =
           (if String.eqb k k' then connectsIn ph ph' else 0) + attempts k' s) ∧
    (∀ k', lookups k' s' = lookups k' s).
Proof.
  intros He Hs.
  assert (Hz : ∀ k k' : string, 0 = (if String.eqb k k' then 0 else 0))
    by (intros k k'; by destruct (String.eqb k k')).
  destruct e as [userId|q r|q r|q r]; simpl in He, Hs; [done| | |];
    injection He as ->;
    destruct (tasks s !! p) as [[k ph]|] eqn:Hp; try done;
    destruct ph; try done; injection Hs as <-; exists k.
  - unfold afterFindById, onError, setTask.
    destruct r as [err|user]; [|destruct (mongoUrl cfg) as [url|]].
    + exists AwaitFindById, (Failed err). simpl.
      split_and!; eauto 6. intros k'. unfold attempts; simpl. by rewrite <- Hz.
    + eexists AwaitFindById, (AwaitConnection _ _). simpl.
      split_and!; eauto 6. intros k'. unfold attempts; simpl.
      by destruct (String.eqb k k').
    + exists AwaitFindById, (Failed InvalidUrl). simpl.
      split_and!; eauto 6. intros k'. unfold attempts; simpl. by rewrite <- Hz.
  - unfold afterCreateConnection, registerSchemas, onError, setTask.
    destruct r as [err|];
      [|destruct (schemaNames cfg) as [|m rest];
        [|destruct (modelThrows cfg m) as [err|]]];
      eexists (AwaitConnection _ _), _; simpl;
      (split; [done|]); (split; [done|]); (split; [|split; [done|]]).
    1, 3, 5, 7: done.
    all: split_and!; eauto 6; intros k'; unfold attempts; simpl; by rewrite <- Hz.
  - unfold afterCreateCollection, registerSchemas, onError, setTask.
    destruct rest as [|m rest]; [|destruct (modelThrows cfg m) as [err|]];
      eexists (AwaitCollection _ _), _; simpl;
      (split; [done|]); (split; [done|]); (split; [|split; [done|]]).
    1, 3, 5: done.
    all: split_and!; eauto 6; intros k'; unfold attempts; simpl; by rewrite <- Hz.
Qed.

Lemma eventTask_key (s : State) (e : Event) (p : nat) :
  eventTask e = Some p → eventKey s e = t_key <$> tasks s !! p.
Proof. destruct e; simpl; by intros [= ->]. Qed.

Lemma resultsFor_app (k : string) (l1 l2 : list (string * Value)) :
  resultsFor k (l1 ++ l2) = resultsFor k l1 ++ resultsFor k l2.
Proof. unfold resultsFor. by rewrite List.filter_app, fmap_app. Qed.

(** The results handed out only grow, by the result of a request. *)
Lemma step_returned (s s' : State) (e : Event) :
  step cfg s e = Some s' →
  ∃ l, returned s' = l ++ returned s ∧
       (∀ k, eventKey s e ≠ Some k → resultsFor k l = []) ∧
       (∀ k, length (resultsFor k l) = if requestsKey k e then 1 else 0).
Proof.
  intros Hs. destruct (eventTask e) as [p|] eqn:He.
  - destruct (settle_shape s s' e p He Hs) as (k & ph & ph' & _ & _ & _ & _ & Hr & _).
    exists []. split; [done|]. split; [done|]. intros k'. by destruct e.
  - destruct e as [userId| | |]; try done. simpl in Hs. injection Hs as <-.
    assert (∃ v, returned (getTenantConnection userId s)
                 = [(toString userId, v)] ++ returned s) as [v Hv].
    { unfold getTenantConnection.
      destruct (property (connections s) (toString userId)); simpl; eauto. }
    exists [(toString userId, v)]. split; [done|].
    unfold resultsFor; simpl. split.
    + intros k Hk. destruct (String.eqb (toString userId) k) eqn:E; [|done].
      apply String.eqb_eq in E. congruence.
    + intros k. by destruct (String.eqb (toString userId) k).
Qed.

(** An event about another key leaves everything about [k] alone. *)
Lemma step_other (k : string) (s s' : State) (e : Event) :
  step cfg s e = Some s' → eventKey s e ≠ Some k →
  connections s' !! k = connections s !! k ∧
  attempts k s' = attempts k s ∧
  lookups k s' = lookups k s ∧
  (∀ p ph, tasks s' !! p = Some {| t_key := k; t_phase := ph |} ↔
           tasks s !! p = Some {| t_key := k; t_phase := ph |}).
Proof.
  intros Hs Hk. destruct (eventTask e) as [p|] eqn:He.
  - destruct (settle_shape s s' e p He Hs)
      as (k0 & ph & ph' & Hp & Hf & _ & Ht & _ & Hc & Ha & Hl).
    rewrite (eventTask_key s e p He), Hp in Hk. simpl in Hk.
    assert (k0 ≠ k) as Hne by congruence.
    split_and!.
    + destruct Hc as [[_ ->]|[(c & _ & ->)|(err & _ & ->)]]; [done| |].
      * by rewrite lookup_insert_ne.
      * by rewrite lookup_delete_ne.
    + rewrite Ha. by apply String.eqb_neq in Hne as ->.
    + apply Hl.
    + intros q phq. rewrite Ht, list_lookup_insert_Some. split.
      * intros [(_ & [= ? _] & _)|[_ ?]]; done.
      * intros Hq. right. split; [|done]. intros ->. congruence.
  - destruct e as [userId| | |]; try done. simpl in Hs, Hk. injection Hs as <-.
    assert (toString userId ≠ k) as Hne by congruence.
    unfold getTenantConnection.
    destruct (property (connections s) (toString userId)); simpl; [done|].
    split_and!.
    + by rewrite lookup_insert_ne.
    + done.
    + unfold lookups; simpl. by apply String.eqb_neq in Hne as ->.
    + intros q phq. rewrite lookup_snoc_Some. split.
      * intros [[_ ?]|[_ [= ? _]]]; done.
      * intros Hq. left. eauto using lookup_lt_Some.
Qed.

(** A settled attempt is never touched again. *)
Lemma settled_stable (s s' : State) (e : Event) (p : nat) (t : Task) :
  step cfg s e = Some s' → tasks s !! p = Some t →
  inFlight (t_phase t) = false → tasks s' !! p = Some t.
Proof.
  intros Hs Hp Hf. destruct (eventTask e) as [q|] eqn:He.
  - destruct (settle_shape s s' e q He Hs)
      as (k0 & ph & ph' & Hq & Hfq & _ & Ht & _).
    rewrite Ht, list_lookup_insert_ne; [done|]. intros ->.
    rewrite Hp in Hq. injection Hq as ->. simpl in Hf. congruence.
  - destruct e as [userId| | |]; try done. simpl in Hs. injection Hs as <-.
    unfold getTenantConnection.
    destruct (property (connections s) (toString userId)); simpl; [done|].
    by apply lookup_app_l_Some.
Qed.

Lemma run_returned (k : string) (tr : list Event) (s s' : State) :
  run cfg s tr = Some s' →
  ∃ new, returned s' = new ++ returned s ∧
         length (resultsFor k new) = length (List.filter (requestsKey k) tr).
Proof.
  revert s. induction tr as [|e tr IH]; intros s Hr; simpl in Hr.
  - injection Hr as <-. by exists [].
  - destruct (step cfg s e) as [s1|] eqn:Hs; [|done].
    destruct (step_returned s s1 e Hs) as (l & Hl & _ & Hn).
    destruct (IH s1 Hr) as (new & Hnew & Hlen).
    exists (new ++ l). rewrite Hnew, Hl, app_assoc. split; [done|].
    rewrite resultsFor_app, length_app, Hlen, (Hn k). simpl.
    destruct (requestsKey k e); simpl; lia.
Qed.

End Steps.

(** ** The course of one attempt *)

Section Flight.

Context (cfg : Config).

Lemma servedBy_inFlight (p : nat) (ph : Phase) (v : Value) :
  inFlight ph = true → servedBy p ph v → v = Promise p.
Proof. intros Hf [->|(c & -> & _)]; done. Qed.

Lemma resultsFor_cons (k k0 : string) (v : Value) (l : list (string * Value)) :
  resultsFor k ((k0, v) :: l) =
  if String.eqb k0 k then v :: resultsFor k l else resultsFor k l.
Proof. unfold resultsFor. simpl. by destruct (String.eqb k0 k). Qed.

Lemma flight_start (userId : UserId) (s : State) :
  property (connections s) (toString userId) = None →
  flight (toString userId) (length (tasks s)) (attempts (toString userId) s)
    (returned s) (getTenantConnection userId s).
Proof.
  intros Hmiss. rewrite (request_miss userId s Hmiss).
  exists AwaitFindById, [(toString userId, Promise (length (tasks s)))]. simpl.
  split_and!; [|done|done|].
  - by rewrite lookup_app_r, Nat.sub_diag.
  - rewrite resultsFor_cons, String.eqb_refl. repeat constructor.
Qed.

Lemma flight_step (k : string) (p n : nat) (rs : list (string * Value))
    (s s' : State) (e : Event) :
  wf s → flight k p n rs s → step cfg s e = Some s' → flight k p n rs s'.
Proof.
  intros W (ph & new & Hp & Hret & Hm) Hs.
  destruct (eventTask e) as [q|] eqn:He.
  - (* an attempt is resumed *)
    destruct (settle_shape cfg s s' e q He Hs)
      as (k0 & ph0 & ph0' & Hq & Hf0 & Hnext & Ht & Hr & _ & Ha & _).
    rewrite Hret in Hr. specialize (Ha k).
    destruct (decide (q = p)) as [->|Hqp].
    + (* this one *)
      rewrite Hp in Hq. injection Hq as <- <-.
      rewrite String.eqb_refl in Ha.
      exists ph0', new. split_and!; [|done|].
      { rewrite Ht. apply list_lookup_insert_eq. eauto using lookup_lt_Some. }
      assert (Forall (servedBy p ph0') (resultsFor k new)) as Hall.
      { destruct ph; try done; destruct Hm as [_ Hm];
          (eapply Forall_impl; [exact Hm|]); intros v Hv;
          left; by eapply servedBy_inFlight. }
      destruct ph, ph0'; try done; destruct Hm as [Hm _]; simpl in Ha;
        (split; [lia|done]).
    + (* another one *)
      assert (tasks s' !! p = Some {| t_key := k; t_phase := ph |}) as Hp'.
      { by rewrite Ht, list_lookup_insert_ne. }
      exists ph, new. split_and!; [done|done|].
      destruct (String.eqb k0 k) eqn:E.
      * apply String.eqb_eq in E as ->.
        pose proof (wf_flight s W _ _ _ Hq Hf0) as Hown.
        destruct ph; try done.
        -- pose proof (wf_flight s W _ _ _ Hp eq_refl). congruence.
        -- pose proof (wf_flight s W _ _ _ Hp eq_refl). congruence.
        -- pose proof (wf_flight s W _ _ _ Hp eq_refl). congruence.
        -- pose proof (wf_done s W _ _ _ Hp). congruence.
      * simpl in Ha. by rewrite Ha.
  - (* a request *)
    destruct e as [userId| | |]; try done. simpl in Hs. injection Hs as <-.
    assert (tasks (getTenantConnection userId s) !! p
            = Some {| t_key := k; t_phase := ph |}) as Hp'.
    { unfold getTenantConnection.
      destruct (property (connections s) (toString userId)); simpl; [done|].
      by apply lookup_app_l_Some. }
    pose proof (request_attempts userId s k) as Ha.
    destruct (property (connections s) (toString userId)) as [v|] eqn:Hprop.
    + exists ph, ((toString userId, v) :: new).
      rewrite (request_hit userId s v Hprop) in Hp', Ha |- *. simpl.
      split_and!; [done|by rewrite Hret|].
      rewrite resultsFor_cons, Ha.
      destruct (String.eqb (toString userId) k) eqn:E; [|done].
      apply String.eqb_eq in E. rewrite E in Hprop.
      destruct ph; try done; destruct Hm as [Hm Hall]; (split; [done|]);
        constructor; try done.
      * pose proof (wf_flight s W _ _ _ Hp eq_refl) as Hown.
        rewrite (property_own _ _ _ Hown) in Hprop. left. congruence.
      * pose proof (wf_flight s W _ _ _ Hp eq_refl) as Hown.
        rewrite (property_own _ _ _ Hown) in Hprop. left. congruence.
      * pose proof (wf_flight s W _ _ _ Hp eq_refl) as Hown.
        rewrite (property_own _ _ _ Hown) in Hprop. left. congruence.
      * pose proof (wf_done s W _ _ _ Hp) as Hown.
        rewrite (property_own _ _ _ Hown) in Hprop. right. exists conn.
        split; congruence.
    + exists ph, ((toString userId, Promise (length (tasks s))) :: new).
      rewrite (request_miss userId s Hprop) in Hp', Ha |- *. simpl.
      split_and!; [done|by rewrite Hret|].
      rewrite resultsFor_cons, Ha.
      destruct (String.eqb (toString userId) k) eqn:E; [|done].
      apply String.eqb_eq in E. rewrite E in Hprop.
      apply property_None in Hprop as [Hnone _].
      destruct ph; try done.
      * pose proof (wf_flight s W _ _ _ Hp eq_refl). congruence.
      * pose proof (wf_flight s W _ _ _ Hp eq_refl). congruence.
      * pose proof (wf_flight s W _ _ _ Hp eq_refl). congruence.
      * pose proof (wf_done s W _ _ _ Hp). congruence.
Qed.

Lemma flight_run (k : string) (p n : nat) (rs : list (string * Value))
    (tr : list Event) (s s' : State) :
  wf s → flight k p n rs s → run cfg s tr = Some s' → flight k p n rs s'.
Proof.
  revert s. induction tr as [|e tr IH]; intros s W F Hr; simpl in Hr.
  - by injection Hr as <-.
  - destruct (step cfg s e) as [s1|] eqn:Hs; [|done].
    apply (IH s1); [by eapply wf_step|by eapply flight_step|done].
Qed.

End Flight.

(** ** Single flight *)

(** C1. Whenever a request finds nothing under its key, the promise of
    the attempt it starts is stored under the key within the same turn,
    before the connector has been called. However the following events
    interleave, every request for the key made while the attempt is in
    flight is handed that same promise and at most one connector call is
    made; once the attempt has succeeded exactly one connector call has
    been made and every one of the N callers (the first and the N-1 that
    followed) has received the same handle. *)
Theorem single_flight (cfg : Config) (s0 s1 : State) (userId : UserId)
    (tr : list Event) :
  reachable cfg s0 →
  property (connections s0) (toString userId) = None →
  run cfg s0 (Request userId :: tr) = Some s1 →
  let k := toString userId in
  let p := length (tasks s0) in
  let s := getTenantConnection userId s0 in
  (connections s !! k = Some (Promise p) ∧
   tasks s !! p = Some {| t_key := k; t_phase := AwaitFindById |} ∧
   effects s = FindById k :: effects s0) ∧
  ∃ new,
    returned s1 = new ++ returned s0 ∧
    length (resultsFor k new) = S (length (List.filter (requestsKey k) tr)) ∧
    (∀ ph, tasks s1 !! p = Some {| t_key := k; t_phase := ph |} →
       inFlight ph = true →
       attempts k s1 ≤ S (attempts k s0) ∧
       Forall (λ v, v = Promise p) (resultsFor k new)) ∧
    (∀ conn, tasks s1 !! p = Some {| t_key := k; t_phase := Done conn |} →
       attempts k s1 = S (attempts k s0) ∧
       Forall (λ v, outcome s1 v = Some (Fulfilled (Connection conn)))
         (resultsFor k new)).
Proof.
  intros Hreach Hmiss Hrun k p s.
  assert (wf s0) as W0 by eauto using wf_reachable.
  split.
  { subst s. rewrite (request_miss userId s0 Hmiss). simpl.
    split_and!; [by rewrite lookup_insert_eq| |done].
    by rewrite lookup_app_r, Nat.sub_diag. }
  destruct (run_returned cfg k _ _ _ Hrun) as (new & Hnew & Hlen).
  simpl in Hlen. unfold k in Hlen at 2. rewrite String.eqb_refl in Hlen.
  simpl in Hrun.
  pose proof (flight_run cfg k p (attempts k s0) (returned s0) tr s s1
                (wf_getTenantConnection userId s0 W0)
                (flight_start userId s0 Hmiss) Hrun)
    as (ph & new' & Hp & Hret & Hm).
  assert (new' = new) as ->.
  { apply (app_inv_tail (returned s0)). by rewrite <- Hret, <- Hnew. }
  exists new. split_and!; [done|done| |].
  - intros ph' Hp' Hfl. rewrite Hp in Hp'. injection Hp' as <-.
    assert (Forall (servedBy p ph) (resultsFor k new) ∧
            attempts k s1 ≤ S (attempts k s0)) as [Hall Hle].
    { destruct ph; try done; destruct Hm as [-> ?]; split; (done || lia). }
    split; [done|]. eapply Forall_impl; [exact Hall|].
    intros v Hv. by eapply servedBy_inFlight.
  - intros conn Hp'. rewrite Hp in Hp'. injection Hp' as ->.
    destruct Hm as [Ha Hall]. split; [done|].
    eapply Forall_impl; [exact Hall|].
    intros v [->|(c & [= <-] & ->)]; simpl; [by rewrite Hp|done].
Qed.

Lemma single_flight_witness :
  let s1 := default init (run Scenario.cfg init Scenario.race) in
  attempts "u123" s1 = 1 ∧
  Forall (λ v, outcome s1 v
               = Some (Fulfilled (Connection
                   {| conn_id := 0;
                      conn_uri := setPathname Scenario.baseUrl "/AI_FARM_user_u123" |})))
    (resultsFor "u123" (returned s1)) ∧
  length (resultsFor "u123" (returned s1)) = 3.
Proof.
  intros s1.
  destruct (single_flight Scenario.cfg init s1 (IdString "u123")
              (tail Scenario.race))
    as (_ & new & Hnew & Hlen & _ & Hdone).
  - by exists [].
  - reflexivity.
  - vm_compute. reflexivity.
  - simpl in Hnew. rewrite app_nil_r in Hnew. subst new.
    destruct (Hdone {| conn_id := 0;
                       conn_uri := setPathname Scenario.baseUrl "/AI_FARM_user_u123" |})
      as [Ha Hall]; [vm_compute; reflexivity|].
    split_and!; [exact Ha|exact Hall|exact Hlen].
Defined.

(** ** Ready handles and failed attempts *)

Section Lifetime.

Context (cfg : Config).

Lemma settled_run (tr : list Event) (s s' : State) (p : nat) (t : Task) :
  run cfg s tr = Some s' → tasks s !! p = Some t →
  inFlight (t_phase t) = false → tasks s' !! p = Some t.
Proof.
  revert s. induction tr as [|e tr IH]; intros s Hr Hp Hf; simpl in Hr.
  - by injection Hr as <-.
  - destruct (step cfg s e) as [s1|] eqn:Hs; [|done].
    eauto using settled_stable.
Qed.

(** An event about key [k] other than a request resumes an attempt in
    flight for [k], whose promise is then what [connections] holds. *)
Lemma eventKey_flight (s s' : State) (e : Event) (k : string) :
  wf s → step cfg s e = Some s' → eventKey s e = Some k →
  requestsKey k e = false →
  ∃ p, eventTask e = Some p ∧ connections s !! k = Some (Promise p).
Proof.
  intros W Hs Hk Hreq. destruct (eventTask e) as [p|] eqn:He.
  - destruct (settle_shape cfg s s' e p He Hs) as (k0 & ph & ph' & Hp & Hf & _).
    rewrite (eventTask_key s e p He), Hp in Hk. injection Hk as ->.
    exists p. split; [done|]. by eapply wf_flight.
  - destruct e as [userId| | |]; try done. simpl in Hk, Hreq.
    injection Hk as <-. by rewrite String.eqb_refl in Hreq.
Qed.

(** Once a handle is stored, a step keeps it, starts nothing for its key,
    and answers a request for the key with it. *)
Lemma ready_step (s s' : State) (e : Event) (k : string) (conn : Conn) :
  wf s → connections s !! k = Some (Connection conn) →
  step cfg s e = Some s' →
  connections s' !! k = Some (Connection conn) ∧
  attempts k s' = attempts k s ∧ lookups k s' = lookups k s ∧
  ∃ l, returned s' = l ++ returned s ∧
       length (resultsFor k l) = (if requestsKey k e then 1 else 0) ∧
       Forall (λ v, v = Connection conn) (resultsFor k l).
Proof.
  intros W Hc Hs. destruct (requestsKey k e) eqn:Hreq.
  - destruct e as [userId| | |]; try done. simpl in Hreq, Hs.
    apply String.eqb_eq in Hreq as <-. injection Hs as <-.
    rewrite (request_hit userId s _ (property_own _ _ _ Hc)). simpl.
    split_and!; try done.
    exists [(toString userId, Connection conn)].
    rewrite resultsFor_cons, String.eqb_refl. split_and!; [done|done|].
    by repeat constructor.
  - assert (eventKey s e ≠ Some k) as Hk.
    { intros Hk. destruct (eventKey_flight s s' e k W Hs Hk Hreq) as (p & _ & Hp).
      congruence. }
    destruct (step_other cfg k s s' e Hs Hk) as (Hc' & Ha & Hl & _).
    destruct (step_returned cfg s s' e Hs) as (l & Hret & Hnone & _).
    split_and!; [congruence|done|done|].
    exists l. rewrite (Hnone k Hk). by split_and!.
Qed.

(** While nothing is found under [k] and nobody asks for it, nothing
    happens for it. *)
Lemma absent_step (s s' : State) (e : Event) (k : string) :
  wf s → property (connections s) k = None →
  step cfg s e = Some s' → requestsKey k e = false →
  property (connections s') k = None ∧
  attempts k s' = attempts k s ∧ lookups k s' = lookups k s.
Proof.
  intros W Hnone Hs Hreq.
  assert (eventKey s e ≠ Some k) as Hk.
  { intros Hk. destruct (eventKey_flight s s' e k W Hs Hk Hreq) as (p & _ & Hp).
    apply property_None in Hnone as [Hnone _]. congruence. }
  destruct (step_other cfg k s s' e Hs Hk) as (Hc' & Ha & Hl & _).
  split_and!; [|done|done]. unfold property in *. by rewrite Hc'.
Qed.

Lemma absent_run (mid : list Event) (s s' : State) (k : string) :
  wf s → property (connections s) k = None →
  forallb (λ e, negb (requestsKey k e)) mid = true →
  run cfg s mid = Some s' →
  property (connections s') k = None ∧
  attempts k s' = attempts k s ∧ lookups k s' = lookups k s.
Proof.
  revert s. induction mid as [|e mid IH]; intros s W Hnone Hall Hr; simpl in *.
  - by injection Hr as <-.
  - destruct (step cfg s e) as [s1|] eqn:Hs; [|done].
    apply andb_true_iff in Hall as [He Hall]. apply negb_true_iff in He.
    destruct (absent_step s s1 e k W Hnone Hs He) as (Hnone1 & Ha & Hl).
    destruct (IH s1 (wf_step cfg s s1 e W Hs) Hnone1 Hall Hr) as (? & ? & ?).
    split_and!; [done|congruence|congruence].
Qed.

End Lifetime.

(** C6. Once an attempt for a key has succeeded, its handle is what the
    registry holds under the key, and stays so through every later event:
    every later request for the key is answered with that very handle,
    and no further profile lookup or connector call is made for it. *)
Theorem cached_for_good (cfg : Config) (s s' : State) (p : nat) (k : string)
    (conn : Conn) (tr : list Event) :
  reachable cfg s →
  tasks s !! p = Some {| t_key := k; t_phase := Done conn |} →
  run cfg s tr = Some s' →
  connections s !! k = Some (Connection conn) ∧
  connections s' !! k = Some (Connection conn) ∧
  attempts k s' = attempts k s ∧ lookups k s' = lookups k s ∧
  ∃ new, returned s' = new ++ returned s ∧
         length (resultsFor k new) = length (List.filter (requestsKey k) tr) ∧
         Forall (λ v, v = Connection conn) (resultsFor k new).
Proof.
  intros Hreach Hp Hr.
  assert (wf s) as W by eauto using wf_reachable.
  pose proof (wf_done s W _ _ _ Hp) as Hc. split; [done|].
  clear Hreach Hp. revert s W Hc Hr.
  induction tr as [|e tr IH]; intros s W Hc Hr; simpl in Hr.
  - injection Hr as <-. split_and!; try done. by exists [].
  - destruct (step cfg s e) as [s1|] eqn:Hs; [|done].
    destruct (ready_step cfg s s1 e k conn W Hc Hs)
      as (Hc1 & Ha1 & Hl1 & l & Hret1 & Hlen1 & Hall1).
    destruct (IH s1 (wf_step cfg s s1 e W Hs) Hc1 Hr)
      as (Hc' & Ha' & Hl' & new & Hret' & Hlen' & Hall').
    split_and!; [done|congruence|congruence|].
    exists (new ++ l). rewrite Hret', Hret1, app_assoc, resultsFor_app.
    split_and!; [done| |by apply Forall_app].
    rewrite length_app, Hlen', Hlen1. simpl.
    destruct (requestsKey k e); simpl; lia.
Qed.

Lemma cached_for_good_witness :
  let s := default init (run Scenario.cfg init Scenario.race) in
  let s' := default init (run Scenario.cfg s
              [Request (IdObject "u123"); Request (IdString "u4");
               Request (IdString "u123")]) in
  attempts "u123" s' = attempts "u123" s ∧
  connections s' !! "u123" = connections s !! "u123".
Proof.
  intros s s'.
  destruct (cached_for_good Scenario.cfg s s' 0 "u123"
              {| conn_id := 0;
                 conn_uri := setPathname Scenario.baseUrl "/AI_FARM_user_u123" |}
              [Request (IdObject "u123"); Request (IdString "u4");
               Request (IdString "u123")])
    as (Hc & Hc' & Ha & _).
  - exists Scenario.race. vm_compute. reflexivity.
  - vm_compute. reflexivity.
  - vm_compute. reflexivity.
  - split; [exact Ha|]. by rewrite Hc, Hc'.
Defined.

Lemma request_keeps_tasks (userId : UserId) (s : State) (p : nat) (t : Task) :
  tasks s !! p = Some t → tasks (getTenantConnection userId s) !! p = Some t.
Proof.
  intros Hp. unfold getTenantConnection.
  destruct (property (connections s) (toString userId)); simpl; [done|].
  by apply lookup_app_l_Some.
Qed.

(** C3. When the attempt started by a request fails, whatever step made
    it fail, nothing is left under its key; every caller that was handed
    its promise (all the callers for the key since it started) is rejected
    with that one error; and the next request for the key, whatever
    happened for other keys meanwhile, starts a new attempt with a new
    promise and a new profile lookup, which calls the connector once more
    as soon as the lookup answers (the configured URI being well formed). *)
Theorem failure_clears_entry (cfg : Config) (s0 s s' s2 : State)
    (userId : UserId) (tr mid : list Event) (e : Event) (ph : Phase) (err : Err) :
  reachable cfg s0 →
  property (connections s0) (toString userId) = None →
  run cfg s0 (Request userId :: tr) = Some s →
  tasks s !! length (tasks s0)
    = Some {| t_key := toString userId; t_phase := ph |} →
  inFlight ph = true →
  step cfg s e = Some s' →
  tasks s' !! length (tasks s0)
    = Some {| t_key := toString userId; t_phase := Failed err |} →
  forallb (λ e, negb (requestsKey (toString userId) e)) mid = true →
  run cfg s' mid = Some s2 →
  let k := toString userId in
  let p := length (tasks s0) in
  let p' := length (tasks s2) in
  let s3 := getTenantConnection userId s2 in
  property (connections s') k = None ∧
  (∃ new, returned s' = new ++ returned s0 ∧
          length (resultsFor k new) = S (length (List.filter (requestsKey k) tr)) ∧
          Forall (λ v, v = Promise p ∧ outcome s' v = Some (Rejected err))
            (resultsFor k new)) ∧
  p' ≠ p ∧
  returned s3 = (k, Promise p') :: returned s2 ∧
  outcome s3 (Promise p') = None ∧
  connections s3 !! k = Some (Promise p') ∧
  lookups k s3 = S (lookups k s') ∧
  (∀ user url, mongoUrl cfg = Some url →
     ∃ s4, step cfg s3 (FindByIdSettled p' (inr user)) = Some s4 ∧
           attempts k s4 = S (attempts k s')).
Proof.
  intros Hreach Hmiss Hrun Hp Hfl Hs Hp' Hmid Hrun2. cbv zeta.
  set (k := toString userId) in *. set (p := length (tasks s0)) in *.
  set (p' := length (tasks s2)).
  assert (wf s0) as W0 by eauto using wf_reachable.
  assert (wf s) as W by eauto using wf_run.
  assert (wf s') as W' by eauto using wf_step.
  (* the failing step resumes the attempt itself *)
  destruct (eventTask e) as [q|] eqn:He; last first.
  { destruct e as [u| | |]; try done. simpl in Hs. injection Hs as <-.
    rewrite (request_keeps_tasks u s _ _ Hp) in Hp'. injection Hp' as ->. done. }
  destruct (settle_shape cfg s s' e q He Hs)
    as (k0 & ph0 & ph0' & Hq & _ & _ & Ht & Hr & Hc & _).
  destruct (decide (q = p)) as [->|Hne]; last first.
  { rewrite Ht, list_lookup_insert_ne in Hp' by done.
    rewrite Hp in Hp'. injection Hp' as ->. done. }
  rewrite Hp in Hq. injection Hq as <- <-.
  rewrite Ht, list_lookup_insert_eq in Hp' by eauto using lookup_lt_Some.
  injection Hp' as ->.
  assert (property (connections s') k = None) as Hgone.
  { destruct Hc as [[? _]|[(c & ? & _)|(err' & _ & ->)]]; [done|done|].
    destruct (wf_own s W _ _ (wf_flight s W _ _ _ Hp Hfl)) as [Hproto _].
    apply property_None. split; [apply lookup_delete_eq|done]. }
  split; [done|]. split.
  { destruct (run_returned cfg k _ _ _ Hrun) as (new & Hnew & Hlen).
    simpl in Hlen. unfold k in Hlen at 2. rewrite String.eqb_refl in Hlen.
    simpl in Hrun.
    pose proof (flight_run cfg k p (attempts k s0) (returned s0) tr _ s
                  (wf_getTenantConnection userId s0 W0)
                  (flight_start userId s0 Hmiss) Hrun)
      as (ph1 & new' & Hp1 & Hret & Hm).
    assert (new' = new) as ->.
    { apply (app_inv_tail (returned s0)). by rewrite <- Hret, <- Hnew. }
    rewrite Hp in Hp1. injection Hp1 as <-.
    exists new. rewrite Hr. split_and!; [done|done|].
    assert (Forall (servedBy p ph) (resultsFor k new)) as Hall
      by (destruct ph; try done; by destruct Hm).
    eapply Forall_impl; [exact Hall|]. intros v Hv.
    rewrite (servedBy_inFlight p ph v Hfl Hv). split; [done|]. simpl.
    rewrite Ht, list_lookup_insert_eq by eauto using lookup_lt_Some. done. }
  assert (tasks s' !! p = Some {| t_key := k; t_phase := Failed err |}) as Hfailed.
  { rewrite Ht. apply list_lookup_insert_eq. eauto using lookup_lt_Some. }
  pose proof (settled_run cfg mid s' s2 p _ Hrun2 Hfailed eq_refl) as Hp2.
  destruct (absent_run cfg mid s' s2 k W' Hgone Hmid Hrun2) as (Hgone2 & Ha2 & Hl2).
  rewrite (request_miss userId s2 Hgone2). simpl. fold k p'.
  split_and!.
  - apply lookup_lt_Some in Hp2. fold p' in Hp2. lia.
  - done.
  - by rewrite lookup_app_r, Nat.sub_diag.
  - by rewrite lookup_insert_eq.
  - unfold lookups at 1. simpl. rewrite String.eqb_refl. simpl.
    fold (lookups k s2). by rewrite Hl2.
  - intros user url Hurl. rewrite lookup_app_r, Nat.sub_diag by done. simpl.
    eexists. split; [done|]. unfold afterFindById. rewrite Hurl.
    unfold attempts at 1. simpl. rewrite String.eqb_refl. simpl.
    fold (attempts k s2). by rewrite Ha2.
Qed.

Lemma failure_clears_entry_witness :
  let s := default init (run Scenario.cfg init Scenario.refused) in
  let s' := default init (step Scenario.cfg s Scenario.refusal) in
  let s2 := default init (run Scenario.cfg s' [Request (IdString "u8")]) in
  let s3 := getTenantConnection (IdObject "u7") s2 in
  property (connections s') "u7" = None ∧
  returned s3 = ("u7", Promise 2) :: returned s2 ∧
  lookups "u7" s3 = S (lookups "u7" s').
Proof.
  intros s s' s2 s3.
  destruct (failure_clears_entry Scenario.cfg init s s' s2 (IdObject "u7")
              (tail Scenario.refused) [Request (IdString "u8")] Scenario.refusal
              (AwaitConnection "AI_FARM_user_u7"
                 (setPathname Scenario.baseUrl "/AI_FARM_user_u7"))
              (OtherError "connect ETIMEDOUT"))
    as (Hgone & _ & _ & Hret & _ & _ & Hl & _).
  - by exists [].
  - reflexivity.
  - vm_compute. reflexivity.
  - vm_compute. reflexivity.
  - reflexivity.
  - vm_compute. reflexivity.
  - vm_compute. reflexivity.
  - reflexivity.
  - vm_compute. reflexivity.
  - split_and!; [exact Hgone|exact Hret|exact Hl].
Defined.

(** ** What the registry is keyed by *)

(** C2, as stated, fails: user [a], whose stored name is [b], and user
    [b], who has none, resolve to the same database, and yet the registry
    ends up with two entries, under [a] and [b] and none under the
    database name, after two connector calls that produced two handles to
    the same address. *)
Lemma cache_key_counterexample :
  let s := default init (run Scenario.cfg init Scenario.twoPaths) in
  run Scenario.cfg init Scenario.twoPaths = Some s ∧
  Resolver.dbName "a" (Some {| tenantDbName := Some "b" |})
    = Resolver.dbName "b" (Some {| tenantDbName := None |}) ∧
  size (connections s) = 2 ∧
  connections s !! "AI_FARM_user_b" = None ∧
  attempts "a" s = 1 ∧ attempts "b" s = 1 ∧
  ∃ ca cb, connections s !! "a" = Some (Connection ca) ∧
           connections s !! "b" = Some (Connection cb) ∧
           conn_uri ca = conn_uri cb ∧ ca ≠ cb.
Proof.
  intros s. split_and!; try (vm_compute; reflexivity).
  exists {| conn_id := 0; conn_uri := setPathname Scenario.baseUrl "/AI_FARM_user_b" |},
         {| conn_id := 1; conn_uri := setPathname Scenario.baseUrl "/AI_FARM_user_b" |}.
  split_and!; try (vm_compute; reflexivity). discriminate.
Qed.

(** C2, amended. The key under which a connection is cached is the string
    form of the user id: a request that finds nothing stores its promise
    under exactly that string, and the handles found under two different
    keys are always two different handles, whatever database names the two
    identities resolve to. *)
Theorem cache_key_is_user_id (cfg : Config) (s : State) (userId : UserId)
    (k1 k2 : string) (c1 c2 : Conn) :
  reachable cfg s →
  (property (connections s) (toString userId) = None →
   connections (getTenantConnection userId s)
     = <[toString userId := Promise (length (tasks s))]> (connections s)) ∧
  (k1 ≠ k2 →
   connections s !! k1 = Some (Connection c1) →
   connections s !! k2 = Some (Connection c2) →
   conn_id c1 ≠ conn_id c2).
Proof.
  intros Hreach. assert (wf s) as W by eauto using wf_reachable. split.
  - intros Hmiss. by rewrite (request_miss userId s Hmiss).
  - intros Hne H1 H2 Hid.
    destruct (wf_own s W _ _ H1) as [_ (p1 & Hp1)].
    destruct (wf_own s W _ _ H2) as [_ (p2 & Hp2)].
    pose proof (wf_uniq s W _ _ _ _ c1 c2 Hp1 Hp2 eq_refl eq_refl Hid) as ->.
    congruence.
Qed.

Lemma cache_key_is_user_id_witness :
  let s := default init (run Scenario.cfg init Scenario.twoPaths) in
  "a" ≠ "b" ∧
  connections s !! "a"
    = Some (Connection {| conn_id := 0;
         conn_uri := setPathname Scenario.baseUrl "/AI_FARM_user_b" |}) ∧
  connections s !! "b"
    = Some (Connection {| conn_id := 1;
         conn_uri := setPathname Scenario.baseUrl "/AI_FARM_user_b" |}) ∧
  0 ≠ 1.
Proof.
  intros s.
  assert ("a" ≠ "b") as Hne by discriminate.
  split_and!; [exact Hne|vm_compute; reflexivity|vm_compute; reflexivity|].
  apply (cache_key_is_user_id Scenario.cfg s (IdString "a") "a" "b"
           {| conn_id := 0; conn_uri := setPathname Scenario.baseUrl "/AI_FARM_user_b" |}
           {| conn_id := 1; conn_uri := setPathname Scenario.baseUrl "/AI_FARM_user_b" |}).
  - exists Scenario.twoPaths. vm_compute. reflexivity.
  - exact Hne.
  - vm_compute. reflexivity.
  - vm_compute. reflexivity.
Defined.

(** C10. The registry only sees [userId.toString()]: replacing the
    argument of every call by its string form changes nothing in any run;
    a first call stores its promise under that string; and once a handle
    is stored there, a call with the value and a call with its string form
    both return that handle and change nothing else, so no second attempt
    is made. *)
Theorem key_coercion (cfg : Config) (v : UserId) (s : State) (conn : Conn)
    (tr : list Event) :
  toString (IdString (toString v)) = toString v ∧
  run cfg s (coerce <$> tr) = run cfg s tr ∧
  (property (connections s) (toString v) = None →
   connections (getTenantConnection v s) !! toString v
     = Some (Promise (length (tasks s)))) ∧
  (connections s !! toString v = Some (Connection conn) →
   getTenantConnection (IdString (toString v)) s = getTenantConnection v s ∧
   getTenantConnection v s =
     {| connections := connections s; tasks := tasks s;
        returned := (toString v, Connection conn) :: returned s;
        effects := effects s; opened := opened s |}).
Proof.
  split_and!.
  - done.
  - revert s. induction tr as [|e tr IH]; intros s; [done|].
    rewrite fmap_cons. simpl.
    replace (step cfg s (coerce e)) with (step cfg s e) by by destruct e.
    destruct (step cfg s e); [apply IH|done].
  - intros Hmiss. rewrite (request_miss v s Hmiss). simpl.
    apply lookup_insert_eq.
  - intros Hc. split; [done|].
    apply request_hit. by apply property_own.
Qed.

Lemma key_coercion_witness :
  let s := default init (run Scenario.cfg init Scenario.race) in
  returned (getTenantConnection (IdObject "u123") s)
    = returned (getTenantConnection (IdString "u123") s) ∧
  effects (getTenantConnection (IdObject "u123") s) = effects s.
Proof.
  intros s.
  destruct (key_coercion Scenario.cfg (IdObject "u123") s
              {| conn_id := 0;
                 conn_uri := setPathname Scenario.baseUrl "/AI_FARM_user_u123" |} [])
    as (_ & _ & _ & Hready).
  destruct Hready as [Heq Hret]; [vm_compute; reflexivity|].
  simpl in Heq. rewrite Heq, Hret. done.
Defined.

(** ** Resolution inside an attempt *)

Section Resolution.

Context (cfg : Config) (db : string → option User).

Lemma connectsTo_step (s s' : State) (e : Event) :
  connectsTo cfg db s → step cfg s e = Some s' →
  answersFrom cfg db s [e] = true → connectsTo cfg db s'.
Proof.
  intros Hinv Hs Hans. simpl in Hans. rewrite Hs, andb_true_r in Hans.
  destruct e as [userId|p r|p r|p r]; simpl in Hs.
  - injection Hs as <-. unfold getTenantConnection.
    destruct (property (connections s) (toString userId)); simpl; [done|].
    intros k uri [[=]|Hin]. by apply Hinv.
  - destruct (tasks s !! p) as [[k0 []]|] eqn:Hp; try done. injection Hs as <-.
    unfold afterFindById, onError, setTask.
    destruct r as [err|user]; [done|].
    destruct (mongoUrl cfg) as [url|] eqn:Hurl; [|done].
    intros k uri [[= <- <-]|Hin]; [|by apply Hinv].
    apply bool_decide_eq_true in Hans as ->. simpl. eauto.
  - destruct (tasks s !! p) as [[k0 []]|] eqn:Hp; try done. injection Hs as <-.
    unfold afterCreateConnection, registerSchemas, onError, setTask.
    destruct r as [err|]; [done|].
    destruct (schemaNames cfg) as [|m rest]; [done|].
    destruct (modelThrows cfg m); [done|].
    intros k u [[=]|[[=]|Hin]]. by apply Hinv.
  - destruct (tasks s !! p) as [[k0 []]|] eqn:Hp; try done. injection Hs as <-.
    unfold afterCreateCollection, registerSchemas, onError, setTask.
    destruct rest as [|m rest]; [done|].
    destruct (modelThrows cfg m); [done|].
    intros k uri [[=]|[[=]|Hin]]. by apply Hinv.
Qed.

Lemma connectsTo_run (tr : list Event) (s s' : State) :
  connectsTo cfg db s → run cfg s tr = Some s' →
  answersFrom cfg db s tr = true → connectsTo cfg db s'.
Proof.
  revert s. induction tr as [|e tr IH]; intros s Hinv Hr Hans; simpl in Hr.
  - by injection Hr as <-.
  - destruct (step cfg s e) as [s1|] eqn:Hs; [|done].
    simpl in Hans. rewrite Hs in Hans. apply andb_true_iff in Hans as [He Hans].
    apply (IH s1); [|done|done].
    apply (connectsTo_step s s1 e Hinv Hs). simpl. by rewrite Hs, He.
Qed.

End Resolution.

(** C8. With the stored profiles fixed, the database name is a function
    of the identifier and its stored profile alone: in any two runs,
    whatever their interleaving, their earlier failures, the state of the
    registry or the rest of the configuration, two connector calls made
    for the same identifier are made for one and the same resolved name,
    each with the address line 33 builds from it by assigning a slash and
    that name to the pathname of its parsed [MONGO_URI]. *)
Theorem resolution_is_stable (cfg1 cfg2 : Config) (db : string → option User)
    (tr1 tr2 : list Event) (s1 s2 : State) (k : string) (uri1 uri2 : Url) :
  run cfg1 init tr1 = Some s1 →
  answersFrom cfg1 db init tr1 = true →
  run cfg2 init tr2 = Some s2 →
  answersFrom cfg2 db init tr2 = true →
  In (CreateConnection k uri1) (effects s1) →
  In (CreateConnection k uri2) (effects s2) →
  ∃ url1 url2,
    mongoUrl cfg1 = Some url1 ∧ mongoUrl cfg2 = Some url2 ∧
    uri1 = setPathname url1 ("/" +:+ Resolver.dbName k (db k)) ∧
    uri2 = setPathname url2 ("/" +:+ Resolver.dbName k (db k)).
Proof.
  intros Hr1 Hans1 Hr2 Hans2 H1 H2.
  assert (connectsTo cfg1 db s1) as Hinv1.
  { eapply connectsTo_run; [|exact Hr1|exact Hans1]. by intros ? ? []. }
  assert (connectsTo cfg2 db s2) as Hinv2.
  { eapply connectsTo_run; [|exact Hr2|exact Hans2]. by intros ? ? []. }
  destruct (Hinv1 _ _ H1) as (url1 & Hu1 & ->).
  destruct (Hinv2 _ _ H2) as (url2 & Hu2 & ->).
  by exists url1, url2.
Qed.

Lemma resolution_is_stable_witness :
  let tr1 := Scenario.refused ++ [Scenario.refusal] in
  let tr2 := [ Request (IdString "a");
               FindByIdSettled 0 (Scenario.profile (Some "b"));
               Request (IdObject "u7"); ConnectionSettled 0 None;
               FindByIdSettled 1 Scenario.noProfile ] in
  let s1 := default init (run Scenario.cfg init tr1) in
  let s2 := default init (run Scenario.otherCfg init tr2) in
  In (CreateConnection "u7" (setPathname Scenario.baseUrl "/AI_FARM_user_u7"))
     (effects s1) ∧
  In (CreateConnection "u7" (setPathname Scenario.otherUrl "/AI_FARM_user_u7"))
     (effects s2) ∧
  Resolver.dbName "u7" (Scenario.profiles "u7") = "AI_FARM_user_u7".
Proof.
  intros tr1 tr2 s1 s2.
  assert (In (CreateConnection "u7"
                (setPathname Scenario.baseUrl "/AI_FARM_user_u7")) (effects s1))
    as Hin1 by (vm_compute; repeat first [left; reflexivity | right]).
  assert (In (CreateConnection "u7"
                (setPathname Scenario.otherUrl "/AI_FARM_user_u7")) (effects s2))
    as Hin2 by (vm_compute; repeat first [left; reflexivity | right]).
  destruct (resolution_is_stable Scenario.cfg Scenario.otherCfg Scenario.profiles
              tr1 tr2 s1 s2 "u7"
              (setPathname Scenario.baseUrl "/AI_FARM_user_u7")
              (setPathname Scenario.otherUrl "/AI_FARM_user_u7"))
    as (url1 & url2 & _).
  - vm_compute. reflexivity.
  - vm_compute. reflexivity.
  - vm_compute. reflexivity.
  - vm_compute. reflexivity.
  - exact Hin1.
  - exact Hin2.
  - split_and!; [exact Hin1|exact Hin2|reflexivity].
Defined.

(** C9. A profile lookup that yields no document is not an error: the
    name falls back to the prefix followed by the id, the attempt goes on
    to call the connector for that database, and the step is the very same
    as for a document without a stored name. *)
Theorem missing_profile_falls_back (cfg : Config) (s : State) (p : nat)
    (k : string) (url : Url) :
  tasks s !! p = Some {| t_key := k; t_phase := AwaitFindById |} →
  mongoUrl cfg = Some url →
  Resolver.dbName k None = Resolver.PREFIX +:+ k ∧
  step cfg s (FindByIdSettled p (inr None))
    = step cfg s (FindByIdSettled p (inr (Some {| tenantDbName := None |}))) ∧
  ∃ s', step cfg s (FindByIdSettled p (inr None)) = Some s' ∧
        tasks s' !! p
          = Some {| t_key := k;
                    t_phase := AwaitConnection (Resolver.PREFIX +:+ k)
                      (setPathname url ("/" +:+ Resolver.PREFIX +:+ k)) |} ∧
        connections s' = connections s ∧
        effects s'
          = CreateConnection k (setPathname url ("/" +:+ Resolver.PREFIX +:+ k))
              :: effects s.
Proof.
  intros Hp Hurl.
  assert (Resolver.dbName k None = Resolver.PREFIX +:+ k) as Hname
    by by apply dbName_fallback.
  split; [done|]. split.
  { simpl. rewrite Hp. unfold afterFindById.
    by rewrite Hname, (dbName_fallback k (Some {| tenantDbName := None |})). }
  simpl. rewrite Hp. unfold afterFindById. rewrite Hurl, Hname.
  eexists. split; [done|]. simpl. split_and!; [|done|done].
  apply list_lookup_insert_eq. eauto using lookup_lt_Some.
Qed.

Lemma missing_profile_falls_back_witness :
  let s := getTenantConnection (IdString "u9") init in
  ∃ s', step Scenario.cfg s (FindByIdSettled 0 (inr None)) = Some s' ∧
        effects s'
          = CreateConnection "u9" (setPathname Scenario.baseUrl "/AI_FARM_user_u9")
              :: effects s.
Proof.
  intros s.
  destruct (missing_profile_falls_back Scenario.cfg s 0 "u9" Scenario.baseUrl)
    as (_ & _ & s' & Hs & _ & _ & He).
  - reflexivity.
  - reflexivity.
  - exists s'. split; [exact Hs|exact He].
Defined.

(** ** Schema registration *)

(** Whatever [createCollection] answered, the loop goes on as if it had
    succeeded. *)
Lemma collection_outcome_ignored (cfg : Config) (s : State) (p : nat)
    (r : option Err) :
  step cfg s (CollectionSettled p r) = step cfg s (CollectionSettled p None).
Proof. done. Qed.

(** In particular a collection that exists already does not stop it. *)
Lemma already_exists_tolerated (cfg : Config) (s : State) (p : nat) :
  step cfg s (CollectionSettled p (Some NamespaceExists))
    = step cfg s (CollectionSettled p None).
Proof. apply collection_outcome_ignored. Qed.

(** A model that cannot be registered fails the attempt. *)
Lemma model_error_fails (cfg : Config) (s : State) (p : nat) (k m : string)
    (conn : Conn) (rest : list string) (err : Err) :
  modelThrows cfg m = Some err →
  registerSchemas cfg p k conn (m :: rest) s = onError p k err s.
Proof. simpl. by intros ->. Qed.

Section Registration.

Context (cfg : Config).

Lemma provisioned_mono (s s' : State) (es : list Effect) (conn : Conn) (m : string) :
  effects s' = es ++ effects s →
  provisioned cfg s conn m → provisioned cfg s' conn m.
Proof.
  unfold provisioned. intros -> [H1 H2].
  split; apply in_or_app; by right.
Qed.

Lemma registering_update (s s' : State) (es : list Effect) (p : nat)
    (k : string) (ph ph' : Phase) :
  registering cfg s →
  tasks s !! p = Some {| t_key := k; t_phase := ph |} →
  tasks s' = <[p := {| t_key := k; t_phase := ph' |}]> (tasks s) →
  effects s' = es ++ effects s →
  match ph' with
  | AwaitCollection conn rest =>
      ∃ done, schemaNames cfg = done ++ rest ∧
              Forall (provisioned cfg s' conn) done
  | Done conn => Forall (provisioned cfg s' conn) (schemaNames cfg)
  | _ => True
  end →
  registering cfg s'.
Proof.
  intros Hinv Hp Ht He Hnew q k0 ph0. rewrite Ht.
  intros [(-> & [= <- <-] & _)|[Hne Hq]]%list_lookup_insert_Some; [done|].
  specialize (Hinv q k0 ph0 Hq). destruct ph0; try done.
  - destruct Hinv as (done & Hd & Hall). exists done. split; [done|].
    eapply Forall_impl; [exact Hall|]. intros m. by apply provisioned_mono with es.
  - eapply Forall_impl; [exact Hinv|]. intros m. by apply provisioned_mono with es.
Qed.

Lemma registering_schemas (s0 s : State) (es : list Effect) (p : nat)
    (k : string) (ph : Phase) (conn : Conn) (done rest : list string) :
  registering cfg s0 →
  tasks s0 !! p = Some {| t_key := k; t_phase := ph |} →
  tasks s = tasks s0 → effects s = es ++ effects s0 →
  schemaNames cfg = done ++ rest →
  Forall (provisioned cfg s conn) done →
  registering cfg (registerSchemas cfg p k conn rest s).
Proof.
  intros Hinv Hp Ht He Hd Hall.
  unfold registerSchemas, onError, setTask.
  destruct rest as [|m rest]; [|destruct (modelThrows cfg m) as [err|]].
  - apply (registering_update s0 _ es p k ph (Done conn)); simpl;
      [done|done|by rewrite Ht|done|].
    by rewrite Hd, app_nil_r.
  - apply (registering_update s0 _ es p k ph (Failed err)); simpl;
      [done|done|by rewrite Ht|done|done].
  - apply (registering_update s0 _
             (CreateCollection conn (collectionName cfg m) :: Model conn m :: es)
             p k ph (AwaitCollection conn rest)); simpl;
      [done|done|by rewrite Ht|by rewrite He|].
    exists (done ++ [m]). split; [by rewrite <- app_assoc|].
    apply Forall_app. split.
    + eapply Forall_impl; [exact Hall|]. intros x [H1 H2].
      split; simpl; auto.
    + apply Forall_singleton. split; simpl; auto.
Qed.

Lemma registering_step (s s' : State) (e : Event) :
  registering cfg s → step cfg s e = Some s' → registering cfg s'.
Proof.
  intros Hinv Hs. destruct e as [userId|p r|p r|p r]; simpl in Hs.
  - injection Hs as <-. unfold getTenantConnection.
    destruct (property (connections s) (toString userId)); simpl; [done|].
    intros q k ph [[_ Hq]|[_ [= <- <-]]]%lookup_snoc_Some; [|done].
    specialize (Hinv q k ph Hq). destruct ph; try done.
    + destruct Hinv as (done & Hd & Hall). exists done. split; [done|].
      eapply Forall_impl; [exact Hall|]. intros m [H1 H2]. split; simpl; auto.
    + eapply Forall_impl; [exact Hinv|]. intros m [H1 H2]. split; simpl; auto.
  - destruct (tasks s !! p) as [[k []]|] eqn:Hp; try done. injection Hs as <-.
    unfold afterFindById, onError, setTask.
    destruct r as [err|user]; [|destruct (mongoUrl cfg) as [url|]].
    + by apply (registering_update s _ [] p k AwaitFindById (Failed err)).
    + by eapply (registering_update s _ [CreateConnection k _] p k AwaitFindById
                   (AwaitConnection _ _)).
    + by apply (registering_update s _ [] p k AwaitFindById (Failed InvalidUrl)).
  - destruct (tasks s !! p) as [[k []]|] eqn:Hp; try done. injection Hs as <-.
    unfold afterCreateConnection. destruct r as [err|].
    + by apply (registering_update s _ [] p k (AwaitConnection dbName uri)
                  (Failed err)).
    + by apply (registering_schemas s _ [] p k (AwaitConnection dbName uri) _ []).
  - destruct (tasks s !! p) as [[k []]|] eqn:Hp; try done. injection Hs as <-.
    destruct (Hinv p k _ Hp) as (done & Hd & Hall).
    by apply (registering_schemas s _ [] p k (AwaitCollection conn rest) _ done).
Qed.

(** After a successful attempt every schema has been registered on the
    handle and the creation of its collection has been asked for. *)
Lemma schemas_all_registered (s : State) (p : nat) (k : string) (conn : Conn) :
  reachable cfg s →
  tasks s !! p = Some {| t_key := k; t_phase := Done conn |} →
  Forall (provisioned cfg s conn) (schemaNames cfg).
Proof.
  intros [tr Hr] Hp.
  assert (registering cfg s) as Hinv; [|by apply (Hinv p k _ Hp)].
  clear Hp. assert (registering cfg init) as H0 by by intros [|?] ? ?.
  revert H0 Hr. generalize init. induction tr as [|e tr IH]; intros s0 H0 Hr.
  - by injection Hr as <-.
  - simpl in Hr. destruct (step cfg s0 e) as [s1|] eqn:Hs; [|done].
    eauto using registering_step.
Qed.

End Registration.

(** C5 does not hold of the code: the second collection cannot be created
    because the caller is not authorized, which is not the
    already-exists condition, and yet the attempt succeeds, its handle is
    cached and handed to the caller. *)
Theorem collection_error_swallowed :
  let s := default init (run Scenario.cfg init Scenario.denied) in
  let conn := {| conn_id := 0;
                 conn_uri := setPathname Scenario.baseUrl "/AI_FARM_user_u5" |} in
  run Scenario.cfg init Scenario.denied = Some s ∧
  effects s !! 0 = Some (CreateCollection conn "milkrecords") ∧
  tasks s !! 0 = Some {| t_key := "u5"; t_phase := Done conn |} ∧
  connections s !! "u5" = Some (Connection conn) ∧
  Forall (λ v, outcome s v = Some (Fulfilled (Connection conn)))
    (resultsFor "u5" (returned s)).
Proof.
  intros s conn. split_and!; try (vm_compute; reflexivity).
  vm_compute. by repeat constructor.
Qed.

(** * Further properties of the registry *)

Import Ledger.

(** ** What the registry holds at any time *)

(** X1. At no time are two attempts in flight for the same key. *)
Theorem one_attempt_in_flight (cfg : Config) (s : State) (p q : nat)
    (k : string) (ph ph' : Phase) :
  reachable cfg s →
  tasks s !! p = Some {| t_key := k; t_phase := ph |} →
  tasks s !! q = Some {| t_key := k; t_phase := ph' |} →
  inFlight ph = true → inFlight ph' = true →
  p = q.
Proof.
  intros Hreach Hp Hq Hf Hf'.
  assert (wf s) as W by eauto using wf_reachable.
  pose proof (wf_flight s W _ _ _ Hp Hf) as E1.
  pose proof (wf_flight s W _ _ _ Hq Hf') as E2.
  congruence.
Qed.

Lemma one_attempt_in_flight_witness :
  let s := default init (run Scenario.cfg init
             [Request (IdString "u1"); Request (IdString "u1");
              FindByIdSettled 0 Scenario.noProfile]) in
  tasks s !! 0
    = Some {| t_key := "u1";
              t_phase := AwaitConnection "AI_FARM_user_u1"
                           (setPathname Scenario.baseUrl "/AI_FARM_user_u1") |} ∧
  0 = 0.
Proof.
  intros s.
  assert (tasks s !! 0
          = Some {| t_key := "u1";
                    t_phase := AwaitConnection "AI_FARM_user_u1"
                      (setPathname Scenario.baseUrl "/AI_FARM_user_u1") |}) as H0
    by (vm_compute; reflexivity).
  split; [exact H0|].
  apply (one_attempt_in_flight Scenario.cfg s 0 0 "u1" _ _
           (ex_intro _ [Request (IdString "u1"); Request (IdString "u1");
                        FindByIdSettled 0 Scenario.noProfile] eq_refl)
           H0 H0 eq_refl eq_refl).
Defined.

(** X2. A promise found in the registry is always that of an attempt for
    that very key which has not settled: the registry never holds a
    rejected promise, nor a fulfilled one. *)
Theorem stored_promise_is_pending (cfg : Config) (s : State) (k : string) (p : nat) :
  reachable cfg s →
  connections s !! k = Some (Promise p) →
  outcome s (Promise p) = None ∧
  ∃ ph, tasks s !! p = Some {| t_key := k; t_phase := ph |} ∧ inFlight ph = true.
Proof.
  intros Hreach Hk.
  assert (wf s) as W by eauto using wf_reachable.
  destruct (wf_own s W _ _ Hk) as [_ (ph & Hp & Hf)].
  split; [|eauto]. simpl. rewrite Hp. by destruct ph.
Qed.

Lemma stored_promise_is_pending_witness :
  let s := default init (run Scenario.cfg init Scenario.refused) in
  connections s !! "u7" = Some (Promise 0) ∧ outcome s (Promise 0) = None.
Proof.
  intros s.
  assert (connections s !! "u7" = Some (Promise 0)) as Hk
    by (vm_compute; reflexivity).
  split; [exact Hk|].
  apply (stored_promise_is_pending Scenario.cfg s "u7" 0); [|exact Hk].
  exists Scenario.refused. vm_compute. reflexivity.
Defined.

(** X12. An id that is the name of a member of [Object.prototype] never gets
    a connection: the registry has no entry of its own for it, and a
    request for it is handed the inherited member at once, without any
    profile lookup, attempt or change to the registry. *)
Theorem prototype_named_id (cfg : Config) (s : State) (userId : UserId) :
  reachable cfg s →
  isProtoKey (toString userId) = true →
  connections s !! toString userId = None ∧
  getTenantConnection userId s =
    {| connections := connections s; tasks := tasks s;
       returned := (toString userId, ProtoMember (toString userId)) :: returned s;
       effects := effects s; opened := opened s |}.
Proof.
  intros Hreach Hproto.
  assert (wf s) as W by eauto using wf_reachable.
  assert (connections s !! toString userId = None) as Hnone.
  { destruct (connections s !! toString userId) as [v|] eqn:E; [|done].
    destruct (wf_own s W _ _ E) as [Hno _]. congruence. }
  split; [done|]. apply request_hit. unfold property. by rewrite Hnone, Hproto.
Qed.

Lemma prototype_named_id_witness :
  let s := default init (run Scenario.cfg init Scenario.race) in
  returned (getTenantConnection (IdString "constructor") s)
    = ("constructor", ProtoMember "constructor") :: returned s ∧
  effects (getTenantConnection (IdString "constructor") s) = effects s.
Proof.
  intros s.
  destruct (prototype_named_id Scenario.cfg s (IdString "constructor")) as [_ ->].
  - exists Scenario.race. vm_compute. reflexivity.
  - reflexivity.
  - done.
Defined.

(** ** Whose handle a caller gets *)

Section Ownership.

Context (cfg : Config).

Lemma key_stable (s s' : State) (e : Event) (p : nat) (k : string) (ph : Phase) :
  step cfg s e = Some s' →
  tasks s !! p = Some {| t_key := k; t_phase := ph |} →
  ∃ ph', tasks s' !! p = Some {| t_key := k; t_phase := ph' |}.
Proof.
  intros Hs Hp. destruct (eventTask e) as [q|] eqn:He.
  - destruct (settle_shape cfg s s' e q He Hs)
      as (k0 & ph0 & ph0' & Hq & _ & _ & Ht & _).
    rewrite Ht. destruct (decide (q = p)) as [->|Hne].
    + rewrite Hp in Hq. injection Hq as <- <-. exists ph0'.
      apply list_lookup_insert_eq. eauto using lookup_lt_Some.
    + exists ph. by rewrite list_lookup_insert_ne.
  - destruct e as [userId| | |]; try done. simpl in Hs. injection Hs as <-.
    exists ph. by apply request_keeps_tasks.
Qed.

Lemma belongs_step (s s' : State) (e : Event) (k : string) (v : Value) :
  step cfg s e = Some s' → belongs s k v → belongs s' k v.
Proof.
  intros Hs Hb. destruct v as [p|conn|name]; simpl in *; [| |done].
  - destruct Hb as (ph & Hp). by eapply key_stable.
  - destruct Hb as (p & Hp). exists p. by eapply settled_stable.
Qed.

Lemma belongs_found (s : State) (k : string) (v : Value) :
  wf s → property (connections s) k = Some v → belongs s k v.
Proof.
  intros W Hv. unfold property in Hv.
  destruct (connections s !! k) as [v'|] eqn:E.
  - injection Hv as ->. destruct (wf_own s W _ _ E) as [_ Hm].
    destruct v as [p|conn|name]; simpl; [|done|done].
    destruct Hm as (ph & Hp & _). eauto.
  - destruct (isProtoKey k) eqn:Hproto; [|done]. injection Hv as <-. done.
Qed.

Lemma returned_belongs_step (s s' : State) (e : Event) :
  wf s → Forall (λ r, belongs s r.1 r.2) (returned s) →
  step cfg s e = Some s' → Forall (λ r, belongs s' r.1 r.2) (returned s').
Proof.
  intros W Hall Hs.
  assert (Forall (λ r, belongs s' r.1 r.2) (returned s)) as Hold.
  { eapply Forall_impl; [exact Hall|]. intros [k v]. by apply belongs_step with e. }
  destruct (eventTask e) as [q|] eqn:He.
  - destruct (settle_shape cfg s s' e q He Hs) as (? & ? & ? & _ & _ & _ & _ & -> & _).
    done.
  - destruct e as [userId| | |]; try done. pose proof Hs as Hs'.
    simpl in Hs. injection Hs as <-.
    destruct (property (connections s) (toString userId)) as [v|] eqn:Hprop.
    + rewrite (request_hit userId s v Hprop) in Hold |- *. simpl.
      constructor; [|done]. simpl.
      rewrite <- (request_hit userId s v Hprop).
      apply belongs_step with s (Request userId); [done|].
      by apply belongs_found.
    + rewrite (request_miss userId s Hprop) in Hold |- *. simpl.
      constructor; [|done]. simpl. exists AwaitFindById.
      by rewrite lookup_app_r, Nat.sub_diag.
Qed.

Lemma returned_belongs (s : State) :
  reachable cfg s → Forall (λ r, belongs s r.1 r.2) (returned s).
Proof.
  intros [tr Hr]. assert (wf init) as W0 by apply wf_init.
  assert (Forall (λ r, belongs init r.1 r.2) (returned init)) as H0
    by constructor.
  revert W0 H0 Hr. generalize init.
  induction tr as [|e tr IH]; intros s0 W0 H0 Hr; simpl in Hr.
  - by injection Hr as <-.
  - destruct (step cfg s0 e) as [s1|] eqn:Hs; [|done].
    apply (IH s1); [by eapply wf_step|by eapply returned_belongs_step|done].
Qed.

Lemma fulfilled_by (s : State) (k : string) (v : Value) (conn : Conn) :
  belongs s k v → outcome s v = Some (Fulfilled (Connection conn)) →
  ∃ p, tasks s !! p = Some {| t_key := k; t_phase := Done conn |}.
Proof.
  intros Hb Ho. destruct v as [p|c|name]; simpl in *.
  - destruct Hb as (ph & Hp). rewrite Hp in Ho.
    destruct ph; try done. injection Ho as ->. eauto.
  - injection Ho as ->. done.
  - done.
Qed.

End Ownership.

(** X3. A caller is only ever handed what belongs to the key it asked for:
    when its promise is fulfilled with a handle, that handle was made by
    an attempt for this key and is the one the registry holds under it. *)
Theorem handed_handle_is_own (cfg : Config) (s : State) (k : string)
    (v : Value) (conn : Conn) :
  reachable cfg s →
  In (k, v) (returned s) →
  outcome s v = Some (Fulfilled (Connection conn)) →
  connections s !! k = Some (Connection conn) ∧
  ∃ p, tasks s !! p = Some {| t_key := k; t_phase := Done conn |}.
Proof.
  intros Hreach Hin Ho.
  assert (wf s) as W by eauto using wf_reachable.
  pose proof (returned_belongs cfg s Hreach) as Hall.
  rewrite Forall_forall in Hall. apply list_elem_of_In in Hin.
  destruct (fulfilled_by s k v conn (Hall _ Hin) Ho) as (p & Hp).
  split; [by eapply wf_done|eauto].
Qed.

Lemma handed_handle_is_own_witness :
  let s := default init (run Scenario.cfg init Cases.sideBySide) in
  connections s !! "u2"
    = Some (Connection {| conn_id := 1;
         conn_uri := setPathname Scenario.baseUrl "/AI_FARM_user_u2" |}).
Proof.
  intros s.
  apply (handed_handle_is_own Scenario.cfg s "u2" (Promise 1)).
  - exists Cases.sideBySide. vm_compute. reflexivity.
  - vm_compute. repeat first [left; reflexivity | right].
  - vm_compute. reflexivity.
Defined.

(** X4. No handle is ever handed to callers of two different keys. *)
Theorem handle_never_shared (cfg : Config) (s : State) (k1 k2 : string)
    (v1 v2 : Value) (c1 c2 : Conn) :
  reachable cfg s →
  In (k1, v1) (returned s) → In (k2, v2) (returned s) →
  outcome s v1 = Some (Fulfilled (Connection c1)) →
  outcome s v2 = Some (Fulfilled (Connection c2)) →
  conn_id c1 = conn_id c2 →
  k1 = k2.
Proof.
  intros Hreach Hin1 Hin2 Ho1 Ho2 Hid.
  assert (wf s) as W by eauto using wf_reachable.
  pose proof (returned_belongs cfg s Hreach) as Hall.
  rewrite Forall_forall in Hall.
  apply list_elem_of_In in Hin1, Hin2.
  destruct (fulfilled_by s k1 v1 c1 (Hall _ Hin1) Ho1) as (p1 & Hp1).
  destruct (fulfilled_by s k2 v2 c2 (Hall _ Hin2) Ho2) as (p2 & Hp2).
  pose proof (wf_uniq s W _ _ _ _ c1 c2 Hp1 Hp2 eq_refl eq_refl Hid) as ->.
  congruence.
Qed.

Lemma handle_never_shared_witness :
  let s := default init (run Scenario.cfg init Cases.sideBySide) in
  outcome s (Connection {| conn_id := 0;
     conn_uri := setPathname Scenario.baseUrl "/AI_FARM_user_u1" |})
    = outcome s (Promise 0) ∧
  "u1" = "u1".
Proof.
  intros s. split; [vm_compute; reflexivity|].
  apply (handle_never_shared Scenario.cfg s "u1" "u1" (Promise 0)
           (Connection {| conn_id := 0;
              conn_uri := setPathname Scenario.baseUrl "/AI_FARM_user_u1" |})
           {| conn_id := 0;
              conn_uri := setPathname Scenario.baseUrl "/AI_FARM_user_u1" |}
           {| conn_id := 0;
              conn_uri := setPathname Scenario.baseUrl "/AI_FARM_user_u1" |}).
  - exists Cases.sideBySide. vm_compute. reflexivity.
  - vm_compute. repeat first [left; reflexivity | right].
  - vm_compute. repeat first [left; reflexivity | right].
  - vm_compute. reflexivity.
  - vm_compute. reflexivity.
  - reflexivity.
Defined.

(** ** Where a cached handle is connected to *)

Section Address.

Context (cfg : Config) (db : string → option User).

Lemma addressed_update (s s' : State) (p : nat) (k : string) (ph' : Phase) :
  addressed cfg db s →
  tasks s' = <[p := {| t_key := k; t_phase := ph' |}]> (tasks s) →
  match ph' with
  | AwaitConnection dbName uri =>
      ∃ url, mongoUrl cfg = Some url ∧
             dbName = Resolver.dbName k (db k) ∧
             uri = setPathname url ("/" +:+ dbName)
  | AwaitCollection conn _ | Done conn =>
      ∃ url, mongoUrl cfg = Some url ∧
             conn_uri conn = setPathname url ("/" +:+ Resolver.dbName k (db k))
  | _ => True
  end →
  addressed cfg db s'.
Proof.
  intros Hinv Ht Hnew q k0 ph0. rewrite Ht.
  intros [(-> & [= <- <-] & _)|[Hne Hq]]%list_lookup_insert_Some; [done|].
  by apply (Hinv q).
Qed.

Lemma addressed_schemas (s0 s : State) (p : nat) (k : string) (conn : Conn)
    (names : list string) (url : Url) :
  addressed cfg db s0 → tasks s = tasks s0 →
  mongoUrl cfg = Some url →
  conn_uri conn = setPathname url ("/" +:+ Resolver.dbName k (db k)) →
  addressed cfg db (registerSchemas cfg p k conn names s).
Proof.
  intros Hinv Ht Hurl Hc. unfold registerSchemas, onError, setTask.
  destruct names as [|m rest]; [|destruct (modelThrows cfg m) as [err|]].
  - apply (addressed_update s0 _ p k (Done conn)); simpl;
      [done|by rewrite Ht|eauto].
  - apply (addressed_update s0 _ p k (Failed err)); simpl;
      [done|by rewrite Ht|done].
  - apply (addressed_update s0 _ p k (AwaitCollection conn rest)); simpl;
      [done|by rewrite Ht|eauto].
Qed.

Lemma addressed_step (s s' : State) (e : Event) :
  addressed cfg db s → step cfg s e = Some s' →
  answersFrom cfg db s [e] = true → addressed cfg db s'.
Proof.
  intros Hinv Hs Hans. simpl in Hans. rewrite Hs, andb_true_r in Hans.
  destruct e as [userId|p r|p r|p r]; simpl in Hs.
  - injection Hs as <-. unfold getTenantConnection.
    destruct (property (connections s) (toString userId)); simpl; [done|].
    intros q k ph [[_ Hq]|[_ [= <- <-]]]%lookup_snoc_Some; [|done].
    by apply (Hinv q).
  - destruct (tasks s !! p) as [[k []]|] eqn:Hp; try done. injection Hs as <-.
    unfold afterFindById, onError, setTask.
    destruct r as [err|user]; [|destruct (mongoUrl cfg) as [url|] eqn:Hurl].
    + by apply (addressed_update s _ p k (Failed err)).
    + apply bool_decide_eq_true in Hans as ->. simpl.
      eapply (addressed_update s _ p k (AwaitConnection _ _)); simpl; [done|done|].
      eauto.
    + by apply (addressed_update s _ p k (Failed InvalidUrl)).
  - destruct (tasks s !! p) as [[k []]|] eqn:Hp; try done. injection Hs as <-.
    unfold afterCreateConnection. destruct r as [err|].
    + by apply (addressed_update s _ p k (Failed err)).
    + destruct (Hinv p k _ Hp) as (url & Hurl & -> & ->).
      by apply (addressed_schemas s _ p k _ _ url).
  - destruct (tasks s !! p) as [[k []]|] eqn:Hp; try done. injection Hs as <-.
    destruct (Hinv p k _ Hp) as (url & Hurl & Hc).
    by apply (addressed_schemas s _ p k _ _ url).
Qed.

Lemma addressed_run (tr : list Event) (s s' : State) :
  addressed cfg db s → run cfg s tr = Some s' →
  answersFrom cfg db s tr = true → addressed cfg db s'.
Proof.
  revert s. induction tr as [|e tr IH]; intros s Hinv Hr Hans; simpl in Hr.
  - by injection Hr as <-.
  - destruct (step cfg s e) as [s1|] eqn:Hs; [|done].
    simpl in Hans. rewrite Hs in Hans. apply andb_true_iff in Hans as [He Hans].
    apply (IH s1); [|done|done].
    apply (addressed_step s s1 e Hinv Hs). simpl. by rewrite Hs, He.
Qed.

End Address.

(** X5. With the stored profiles fixed, the handle the registry holds under
    an id was opened with the address lines 32-34 build for that id's own
    resolved database name: the parsed [MONGO_URI] after a slash and the
    name have been assigned to its pathname; scheme, credentials, host,
    port and query string are those of [MONGO_URI]. *)
Theorem cached_handle_address (cfg : Config) (db : string → option User)
    (tr : list Event) (s : State) (k : string) (conn : Conn) :
  run cfg init tr = Some s →
  answersFrom cfg db init tr = true →
  connections s !! k = Some (Connection conn) →
  ∃ url, mongoUrl cfg = Some url ∧
         conn_uri conn = setPathname url ("/" +:+ Resolver.dbName k (db k)) ∧
         url_scheme (conn_uri conn) = url_scheme url ∧
         url_authority (conn_uri conn) = url_authority url ∧
         url_search (conn_uri conn) = url_search url.
Proof.
  intros Hr Hans Hk.
  assert (wf s) as W by (eapply wf_reachable; by exists tr).
  destruct (wf_own s W _ _ Hk) as [_ (p & Hp)].
  assert (addressed cfg db s) as Hinv.
  { eapply addressed_run; [|exact Hr|exact Hans]. by intros [|?] ? ?. }
  destruct (Hinv p k _ Hp) as (url & Hurl & ->). exists url.
  split_and!; try done; unfold setPathname; by destruct (url_path url).
Qed.

Lemma cached_handle_address_witness :
  let s := default init (run Scenario.cfg init Scenario.twoPaths) in
  ∃ url, mongoUrl Scenario.cfg = Some url ∧
         setPathname Scenario.baseUrl "/AI_FARM_user_b"
           = setPathname url ("/" +:+ Resolver.dbName "a" (Cases.store "a")).
Proof.
  intros s.
  destruct (cached_handle_address Scenario.cfg Cases.store Scenario.twoPaths s "a"
              {| conn_id := 0;
                 conn_uri := setPathname Scenario.baseUrl "/AI_FARM_user_b" |})
    as (url & Hurl & Huri & _).
  - vm_compute. reflexivity.
  - vm_compute. reflexivity.
  - vm_compute. reflexivity.
  - exists url. split; [exact Hurl|exact Huri].
Defined.

(** ** Deployments in which no tenant can be served *)

Section Grounded.

Context (cfg : Config).

Lemma grounded_step (s s' : State) (e : Event) :
  mongoUrl cfg = None → grounded s → step cfg s e = Some s' → grounded s'.
Proof.
  intros Hurl (Ho & He & Ht) Hs.
  destruct e as [userId|p r|p r|p r]; simpl in Hs.
  - injection Hs as <-. unfold getTenantConnection.
    destruct (property (connections s) (toString userId)); simpl; [done|].
    split_and!; simpl; [done|by constructor|].
    intros q t [[_ Hq]|[_ <-]]%lookup_snoc_Some; [by eapply Ht|done].
  - destruct (tasks s !! p) as [[k []]|] eqn:Hp; try done. injection Hs as <-.
    unfold afterFindById, onError, setTask. rewrite Hurl.
    destruct r as [err|user]; (split_and!; simpl; [done|done|]);
      intros q t [(-> & <- & _)|[_ Hq]]%list_lookup_insert_Some;
      (done || by eapply Ht).
  - destruct (tasks s !! p) as [[k []]|] eqn:Hp; try done.
    by specialize (Ht p _ Hp).
  - destruct (tasks s !! p) as [[k []]|] eqn:Hp; try done.
    by specialize (Ht p _ Hp).
Qed.

Lemma grounded_reachable (s : State) :
  mongoUrl cfg = None → reachable cfg s → grounded s.
Proof.
  intros Hurl [tr Hr].
  assert (grounded init) as H0.
  { split_and!; [done|constructor|]. by intros [|?] ? ?. }
  revert H0 Hr. generalize init.
  induction tr as [|e tr IH]; intros s0 H0 Hr; simpl in Hr.
  - by injection Hr as <-.
  - destruct (step cfg s0 e) as [s1|] eqn:Hs; [|done].
    eauto using grounded_step.
Qed.

End Grounded.

Lemma attempts_none (k : string) (s : State) :
  Forall (λ e, isConnectEffect e = false) (effects s) → attempts k s = 0.
Proof.
  unfold attempts. induction 1 as [|e es He _ IH]; [done|]. simpl.
  destruct e; simpl in *; try done.
Qed.

(** X10. When [MONGO_URI] does not parse, no tenant is ever served: the
    connector is never called, no handle is opened or cached, no caller
    is ever fulfilled with a handle, and every attempt whose profile
    lookup answers fails on the address and leaves nothing under its key. *)
Theorem unparsable_uri_serves_nobody (cfg : Config) (s : State) :
  mongoUrl cfg = None →
  reachable cfg s →
  opened s = 0 ∧
  (∀ k, attempts k s = 0) ∧
  (∀ k conn, connections s !! k ≠ Some (Connection conn)) ∧
  (∀ k v conn, In (k, v) (returned s) →
     outcome s v ≠ Some (Fulfilled (Connection conn))) ∧
  (∀ p k user, tasks s !! p = Some {| t_key := k; t_phase := AwaitFindById |} →
     ∃ s', step cfg s (FindByIdSettled p (inr user)) = Some s' ∧
           tasks s' !! p = Some {| t_key := k; t_phase := Failed InvalidUrl |} ∧
           property (connections s') k = None).
Proof.
  intros Hurl Hreach.
  assert (wf s) as W by eauto using wf_reachable.
  destruct (grounded_reachable cfg s Hurl Hreach) as (Ho & He & Ht).
  assert (∀ p k conn, tasks s !! p ≠ Some {| t_key := k; t_phase := Done conn |})
    as Hnodone by (intros p k conn Hp; by specialize (Ht p _ Hp)).
  split_and!.
  - done.
  - intros k. by apply attempts_none.
  - intros k conn Hk. destruct (wf_own s W _ _ Hk) as [_ (p & Hp)].
    by eapply Hnodone.
  - intros k v conn Hin Hout.
    pose proof (returned_belongs cfg s Hreach) as Hall.
    rewrite Forall_forall in Hall. apply list_elem_of_In in Hin.
    destruct (fulfilled_by s k v conn (Hall _ Hin) Hout) as (p & Hp).
    by eapply Hnodone.
  - intros p k user Hp. simpl. rewrite Hp. unfold afterFindById. rewrite Hurl.
    eexists. split; [done|]. simpl. split.
    + apply list_lookup_insert_eq. eauto using lookup_lt_Some.
    + destruct (wf_own s W _ _ (wf_flight s W _ _ _ Hp eq_refl)) as [Hproto _].
      apply property_None. split; [apply lookup_delete_eq|done].
Qed.

Lemma unparsable_uri_serves_nobody_witness :
  let s := default init (run Cases.noUri init
             [Request (IdString "u1"); FindByIdSettled 0 Scenario.noProfile;
              Request (IdString "u1"); Request (IdString "u2")]) in
  opened s = 0 ∧ attempts "u1" s = 0 ∧ length (tasks s) = 3.
Proof.
  intros s.
  destruct (unparsable_uri_serves_nobody Cases.noUri s) as (Ho & Ha & _).
  - reflexivity.
  - exists [Request (IdString "u1"); FindByIdSettled 0 Scenario.noProfile;
            Request (IdString "u1"); Request (IdString "u2")].
    vm_compute. reflexivity.
  - split_and!; [exact Ho|exact (Ha "u1")|vm_compute; reflexivity].
Defined.

Section Blocked.

Context (cfg : Config) (m : string) (err : Err).

Hypothesis m_throws : modelThrows cfg m = Some err.

Lemma blocked_schemas (s0 s : State) (p : nat) (k : string) (conn : Conn)
    (names : list string) :
  blockedBy m s0 → tasks s = tasks s0 → In m names →
  blockedBy m (registerSchemas cfg p k conn names s).
Proof.
  intros Hinv Ht Hin. unfold registerSchemas, onError, setTask.
  destruct names as [|x rest]; [done|].
  destruct (modelThrows cfg x) as [err'|] eqn:Hx; simpl; rewrite Ht;
    intros q t [(-> & <- & _)|[_ Hq]]%list_lookup_insert_Some;
    try (by eapply Hinv); simpl; [done|].
  destruct Hin as [->|Hin]; [congruence|done].
Qed.

Lemma blocked_step (s s' : State) (e : Event) :
  In m (schemaNames cfg) → blockedBy m s → step cfg s e = Some s' →
  blockedBy m s'.
Proof.
  intros Hin Hinv Hs. destruct e as [userId|p r|p r|p r]; simpl in Hs.
  - injection Hs as <-. unfold getTenantConnection.
    destruct (property (connections s) (toString userId)); simpl; [done|].
    intros q t [[_ Hq]|[_ <-]]%lookup_snoc_Some; [by eapply Hinv|done].
  - destruct (tasks s !! p) as [[k []]|] eqn:Hp; try done. injection Hs as <-.
    unfold afterFindById, onError, setTask.
    destruct r as [err'|user]; [|destruct (mongoUrl cfg)]; simpl;
      intros q t [(-> & <- & _)|[_ Hq]]%list_lookup_insert_Some;
      (done || by eapply Hinv).
  - destruct (tasks s !! p) as [[k []]|] eqn:Hp; try done. injection Hs as <-.
    unfold afterCreateConnection. destruct r as [err'|].
    + unfold onError, setTask. simpl.
      intros q t [(-> & <- & _)|[_ Hq]]%list_lookup_insert_Some;
        (done || by eapply Hinv).
    + by apply (blocked_schemas s).
  - destruct (tasks s !! p) as [[k []]|] eqn:Hp; try done. injection Hs as <-.
    apply (blocked_schemas s); [done|done|]. by specialize (Hinv p _ Hp).
Qed.

Lemma blocked_reachable (s : State) :
  In m (schemaNames cfg) → reachable cfg s → blockedBy m s.
Proof.
  intros Hin [tr Hr].
  assert (blockedBy m init) as H0 by by intros [|?] ? ?.
  revert H0 Hr. generalize init.
  induction tr as [|e tr IH]; intros s0 H0 Hr; simpl in Hr.
  - by injection Hr as <-.
  - destruct (step cfg s0 e) as [s1|] eqn:Hs; [|done].
    eauto using blocked_step.
Qed.

End Blocked.

(** X11. One schema definition that [conn.model] refuses is enough to keep
    every tenant out: no attempt ever succeeds, so no handle is ever
    cached and no caller is ever fulfilled with one, although the
    connector is called (and handles are opened) all the same. *)
Theorem refused_schema_serves_nobody (cfg : Config) (m : string) (err : Err)
    (s : State) :
  In m (schemaNames cfg) →
  modelThrows cfg m = Some err →
  reachable cfg s →
  (∀ p k conn, tasks s !! p ≠ Some {| t_key := k; t_phase := Done conn |}) ∧
  (∀ k conn, connections s !! k ≠ Some (Connection conn)) ∧
  (∀ k v conn, In (k, v) (returned s) →
     outcome s v ≠ Some (Fulfilled (Connection conn))).
Proof.
  intros Hin Hm Hreach.
  assert (wf s) as W by eauto using wf_reachable.
  pose proof (blocked_reachable cfg m err Hm s Hin Hreach) as Hinv.
  assert (∀ p k conn, tasks s !! p ≠ Some {| t_key := k; t_phase := Done conn |})
    as Hnodone by (intros p k conn Hp; by specialize (Hinv p _ Hp)).
  split_and!; [done| |].
  - intros k conn Hk. destruct (wf_own s W _ _ Hk) as [_ (p & Hp)].
    by eapply Hnodone.
  - intros k v conn Hi Hout.
    pose proof (returned_belongs cfg s Hreach) as Hall.
    rewrite Forall_forall in Hall. apply list_elem_of_In in Hi.
    destruct (fulfilled_by s k v conn (Hall _ Hi) Hout) as (p & Hp).
    by eapply Hnodone.
Qed.

Lemma refused_schema_serves_nobody_witness :
  let s := default init (run Cases.badSchema init
             [Request (IdString "u1"); FindByIdSettled 0 Scenario.noProfile;
              ConnectionSettled 0 None; CollectionSettled 0 None]) in
  opened s = 1 ∧ attempts "u1" s = 1 ∧
  connections s !! "u1" ≠ Some (Connection {| conn_id := 0;
     conn_uri := setPathname Scenario.baseUrl "/AI_FARM_user_u1" |}).
Proof.
  intros s.
  destruct (refused_schema_serves_nobody Cases.badSchema "Broken"
              (OtherError "invalid schema") s) as (_ & Hk & _).
  - vm_compute. right; left; reflexivity.
  - reflexivity.
  - exists [Request (IdString "u1"); FindByIdSettled 0 Scenario.noProfile;
            ConnectionSettled 0 None; CollectionSettled 0 None].
    vm_compute. reflexivity.
  - split_and!; [vm_compute; reflexivity|vm_compute; reflexivity|apply Hk].
Defined.

(** ** Tenants do not interfere *)

(** X7. Whatever happens for other keys (requests, answers, failures) leaves
    everything about key [k] as it was: its entry, its attempts, the
    calls made on its behalf and the results handed out for it. *)
Theorem other_keys_do_not_interfere (cfg : Config) (k : string)
    (tr : list Event) (s s' : State) :
  run cfg s tr = Some s' →
  avoids cfg k s tr = true →
  connections s' !! k = connections s !! k ∧
  attempts k s' = attempts k s ∧
  lookups k s' = lookups k s ∧
  resultsFor k (returned s') = resultsFor k (returned s) ∧
  (∀ p ph, tasks s' !! p = Some {| t_key := k; t_phase := ph |} ↔
           tasks s !! p = Some {| t_key := k; t_phase := ph |}).
Proof.
  revert s. induction tr as [|e tr IH]; intros s Hr Hav; simpl in Hr.
  - by injection Hr as <-.
  - destruct (step cfg s e) as [s1|] eqn:Hs; [|done].
    simpl in Hav. rewrite Hs in Hav. apply andb_true_iff in Hav as [Hk Hav].
    apply negb_true_iff, bool_decide_eq_false in Hk.
    destruct (step_other cfg k s s1 e Hs Hk) as (Hc & Ha & Hl & Ht).
    destruct (step_returned cfg s s1 e Hs) as (l & Hret & Hnone & _).
    destruct (IH s1 Hr Hav) as (Hc' & Ha' & Hl' & Hr' & Ht').
    split_and!; [congruence|congruence|congruence| |].
    + by rewrite Hr', Hret, resultsFor_app, (Hnone k Hk).
    + intros p ph. by rewrite Ht', Ht.
Qed.

Lemma other_keys_do_not_interfere_witness :
  let s := default init (run Scenario.cfg init
             [Request (IdString "u1"); FindByIdSettled 0 Scenario.noProfile]) in
  let s' := default init (run Scenario.cfg s Cases.aside) in
  connections s' !! "u1" = Some (Promise 0) ∧ attempts "u1" s' = 1 ∧
  length (tasks s') = 3.
Proof.
  intros s s'.
  destruct (other_keys_do_not_interfere Scenario.cfg "u1" Cases.aside s s')
    as (Hc & Ha & _).
  - vm_compute. reflexivity.
  - vm_compute. reflexivity.
  - split_and!; [by rewrite Hc|by rewrite Ha|vm_compute; reflexivity].
Defined.

(** ** Every attempt comes to an end *)

Section Budget.

Context (cfg : Config).

Lemma budget_schemas (s : State) (p : nat) (k : string) (conn : Conn)
    (names : list string) (t' : Task) :
  p < length (tasks s) →
  tasks (registerSchemas cfg p k conn names s) !! p = Some t' →
  stepsLeft cfg (t_phase t') ≤ length names ∧
  (match t_phase t' with Failed _ => False | _ => True end →
   stepsLeft cfg (t_phase t') = length names).
Proof.
  intros Hlt. unfold registerSchemas, onError, setTask.
  destruct names as [|m rest]; [|destruct (modelThrows cfg m)]; simpl;
    rewrite list_lookup_insert_eq by done; intros [= <-]; simpl;
    (split; [lia|]); (done || lia).
Qed.

Lemma budget_step (s s' : State) (e : Event) (p : nat) :
  step cfg s e = Some s' →
  budget cfg s' p + (if bool_decide (eventTask e = Some p) then 1 else 0)
    ≤ budget cfg s p ∧
  ((∀ t, tasks s' !! p = Some t →
         match t_phase t with Failed _ => False | _ => True end) →
   budget cfg s' p + (if bool_decide (eventTask e = Some p) then 1 else 0)
     = budget cfg s p).
Proof.
  intros Hs. unfold budget. destruct (eventTask e) as [q|] eqn:He.
  - destruct (decide (q = p)) as [->|Hne]; last first.
    { destruct (settle_shape cfg s s' e q He Hs)
        as (k & ph & ph' & _ & _ & _ & Ht & _).
      rewrite Ht, list_lookup_insert_ne by done.
      rewrite bool_decide_eq_false_2 by congruence. split; [lia|]. intros _. lia. }
    rewrite bool_decide_eq_true_2 by done.
    destruct e as [userId|q r|q r|q r]; simpl in He, Hs; [done| | |];
      injection He as ->;
      destruct (tasks s !! p) as [[k ph]|] eqn:Hp; try done;
      destruct ph; try done; injection Hs as <-;
      assert (p < length (tasks s)) as Hlt by eauto using lookup_lt_Some.
    + unfold afterFindById, onError, setTask.
      destruct r as [err|user]; [|destruct (mongoUrl cfg)]; simpl;
        rewrite list_lookup_insert_eq by done; simpl;
        (split; [lia|]); intros Hok; try lia; by specialize (Hok _ eq_refl).
    + unfold afterCreateConnection. destruct r as [err|].
      * unfold onError, setTask. simpl.
        rewrite list_lookup_insert_eq by done. simpl.
        split; [lia|]. intros Hok. by specialize (Hok _ eq_refl).
      * match goal with |- context [registerSchemas cfg p k ?c ?n ?s0] =>
          destruct (tasks (registerSchemas cfg p k c n s0) !! p) as [t'|] eqn:Ht';
          [destruct (budget_schemas s0 p k c n t' Hlt Ht') as [Hle Heq]|]
        end.
        -- simpl. split; [lia|]. intros Hok. rewrite Heq; [lia|]. by apply Hok.
        -- exfalso. apply lookup_ge_None in Ht'.
           unfold registerSchemas, onError, setTask in Ht'.
           destruct (schemaNames cfg) as [|m rest];
             [|destruct (modelThrows cfg m)]; simpl in Ht';
             rewrite length_insert in Ht'; lia.
    + unfold afterCreateCollection.
      destruct (tasks (registerSchemas cfg p k conn rest s) !! p) as [t'|] eqn:Ht'.
      * destruct (budget_schemas s p k conn rest t' Hlt Ht') as [Hle Heq].
        simpl. split; [lia|]. intros Hok. rewrite Heq; [lia|]. by apply Hok.
      * exfalso. apply lookup_ge_None in Ht'.
        unfold registerSchemas, onError, setTask in Ht'.
        destruct rest as [|m rest']; [|destruct (modelThrows cfg m)];
          simpl in Ht'; rewrite length_insert in Ht'; lia.
  - rewrite bool_decide_eq_false_2 by done.
    destruct e as [userId| | |]; try done. simpl in Hs. injection Hs as <-.
    unfold getTenantConnection.
    destruct (property (connections s) (toString userId)); simpl.
    { split; [lia|]. intros _. lia. }
    destruct (tasks s !! p) as [t|] eqn:Hp.
    + rewrite (lookup_app_l_Some _ _ _ _ Hp). split; [lia|]. intros _. lia.
    + apply lookup_ge_None in Hp.
      destruct (decide (p = length (tasks s))) as [->|Hne].
      * rewrite lookup_app_r, Nat.sub_diag by done. simpl.
        split; [lia|]. intros _. lia.
      * rewrite (proj2 (lookup_ge_None _ _)) by (rewrite length_app; simpl; lia).
        split; [lia|]. intros _. lia.
Qed.

Lemma failed_stays (tr : list Event) (s s' : State) (p : nat) :
  run cfg s tr = Some s' →
  (∀ t, tasks s' !! p = Some t →
        match t_phase t with Failed _ => False | _ => True end) →
  ∀ t, tasks s !! p = Some t →
       match t_phase t with Failed _ => False | _ => True end.
Proof.
  intros Hr Hok t Hp. destruct t as [k ph]. destruct ph; try done.
  pose proof (settled_run cfg tr s s' p _ Hr Hp eq_refl) as Hp'.
  by specialize (Hok _ Hp').
Qed.

Lemma budget_run (tr : list Event) (s s' : State) (p : nat) :
  run cfg s tr = Some s' →
  resumptions p tr + budget cfg s' p ≤ budget cfg s p ∧
  ((∀ t, tasks s' !! p = Some t →
         match t_phase t with Failed _ => False | _ => True end) →
   resumptions p tr + budget cfg s' p = budget cfg s p).
Proof.
  revert s. induction tr as [|e tr IH]; intros s Hr; simpl in Hr.
  - injection Hr as <-. unfold resumptions. simpl. split; [lia|]. intros _. lia.
  - destruct (step cfg s e) as [s1|] eqn:Hs; [|done].
    destruct (budget_step s s1 e p Hs) as [Hle Heq].
    destruct (IH s1 Hr) as [Hle' Heq'].
    unfold resumptions in *. simpl.
    destruct (bool_decide (eventTask e = Some p)); simpl.
    + split; [lia|]. intros Hok. specialize (Heq' Hok).
      specialize (Heq (failed_stays tr s1 s' p Hr Hok)). lia.
    + split; [lia|]. intros Hok. specialize (Heq' Hok).
      specialize (Heq (failed_stays tr s1 s' p Hr Hok)). lia.
Qed.

End Budget.

(** X8. An attempt is resumed at most twice plus once per schema, whatever
    the collaborators answer, and exactly that often when it succeeds;
    until it has settled, an answer of the kind it waits for can always
    be taken. *)
Theorem attempts_come_to_an_end (cfg : Config) (tr : list Event) (s : State)
    (p : nat) :
  run cfg init tr = Some s →
  resumptions p tr ≤ length (schemaNames cfg) + 2 ∧
  (∀ k conn, tasks s !! p = Some {| t_key := k; t_phase := Done conn |} →
     resumptions p tr = length (schemaNames cfg) + 2) ∧
  (∀ k ph, tasks s !! p = Some {| t_key := k; t_phase := ph |} →
     inFlight ph = true →
     ∃ e, answerFor p ph = Some e ∧ is_Some (step cfg s e)).
Proof.
  intros Hr. destruct (budget_run cfg tr init s p Hr) as [Hle Heq].
  unfold budget at 2 in Hle. unfold budget at 2 in Heq. simpl in Hle, Heq.
  split_and!.
  - lia.
  - intros k conn Hp.
    assert (budget cfg s p = 0) as H0 by (unfold budget; by rewrite Hp).
    rewrite <- Heq; [lia|]. intros t Ht. rewrite Hp in Ht. by injection Ht as <-.
  - intros k ph Hp Hf. destruct ph; try done; simpl; eexists;
      (split; [done|]); simpl; rewrite Hp; eauto.
Qed.

Lemma attempts_come_to_an_end_witness :
  let tr := Scenario.race in
  resumptions 0 tr = 4 ∧ length (schemaNames Scenario.cfg) + 2 = 4.
Proof.
  intros tr.
  destruct (attempts_come_to_an_end Scenario.cfg tr
              (default init (run Scenario.cfg init tr)) 0) as (_ & Hd & _).
  - vm_compute. reflexivity.
  - split; [|reflexivity].
    apply (Hd "u123" {| conn_id := 0;
              conn_uri := setPathname Scenario.baseUrl "/AI_FARM_user_u123" |}).
    vm_compute. reflexivity.
Defined.

(** ** Lookups and connector calls, counted *)

Section Accounting.

Context (cfg : Config).

Lemma count_insert (f : Task → bool) (l : list Task) (p : nat) (t t' : Task) :
  l !! p = Some t →
  length (List.filter f (<[p := t']> l)) + (if f t then 1 else 0)
    = length (List.filter f l) + (if f t' then 1 else 0).
Proof.
  revert p. induction l as [|x l IH]; intros [|p] Hp; simpl in *; try done.
  - injection Hp as ->. destruct (f t), (f t'); simpl; lia.
  - specialize (IH p Hp). destruct (f x); simpl; lia.
Qed.

Lemma count_snoc (f : Task → bool) (l : list Task) (t : Task) :
  length (List.filter f (l ++ [t]))
    = length (List.filter f l) + (if f t then 1 else 0).
Proof.
  rewrite List.filter_app, length_app. simpl. by destruct (f t).
Qed.

Lemma accounting_step (k : string) (s s' : State) (e : Event) :
  step cfg s e = Some s' →
  lookups k s = started k s ∧ attempts k s + waiting k s ≤ started k s →
  lookups k s' = started k s' ∧ attempts k s' + waiting k s' ≤ started k s'.
Proof.
  intros Hs [Hl Ha]. destruct (eventTask e) as [p|] eqn:He.
  - destruct (settle_shape cfg s s' e p He Hs)
      as (k0 & ph & ph' & Hp & Hf & Hnext & Ht & _ & _ & Ha' & Hl').
    unfold started, waiting in *. rewrite Ht, Ha', Hl'.
    pose proof (count_insert (forKey k) _ p _ {| t_key := k0; t_phase := ph' |} Hp) as H1.
    pose proof (count_insert (awaitingProfile k) _ p _
                  {| t_key := k0; t_phase := ph' |} Hp) as H2.
    unfold awaitingProfile, forKey in *. simpl in *.
    destruct (String.eqb k0 k); simpl in *;
      destruct ph, ph'; simpl in *; try done; lia.
  - destruct e as [userId| | |]; try done. simpl in Hs. injection Hs as <-.
    rewrite request_attempts. unfold getTenantConnection.
    destruct (property (connections s) (toString userId)); [done|].
    unfold started, waiting, lookups in *. simpl.
    rewrite !count_snoc. unfold awaitingProfile, forKey in *. simpl.
    destruct (String.eqb (toString userId) k); simpl; lia.
Qed.

Lemma accounting_reachable (k : string) (s : State) :
  reachable cfg s →
  lookups k s = started k s ∧ attempts k s + waiting k s ≤ started k s.
Proof.
  intros [tr Hr].
  assert (lookups k init = started k init ∧
          attempts k init + waiting k init ≤ started k init) as H0 by done.
  revert H0 Hr. generalize init.
  induction tr as [|e tr IH]; intros s0 H0 Hr; simpl in Hr.
  - by injection Hr as <-.
  - destruct (step cfg s0 e) as [s1|] eqn:Hs; [|done].
    eauto using accounting_step.
Qed.

End Accounting.

(** X9. Every attempt for an id makes exactly one profile lookup, and the
    connector is called at most once per lookup that has answered: it is
    never called without a profile lookup before it. *)
Theorem one_lookup_per_attempt (cfg : Config) (k : string) (s : State) :
  reachable cfg s →
  lookups k s = started k s ∧
  attempts k s + waiting k s ≤ lookups k s.
Proof.
  intros Hreach. destruct (accounting_reachable cfg k s Hreach) as [Hl Ha].
  split; [done|lia].
Qed.

Lemma one_lookup_per_attempt_witness :
  let s := default init (run Scenario.cfg init
             (Scenario.refused ++ Scenario.refusal ::
              [Request (IdString "u7"); Request (IdString "u7")])) in
  lookups "u7" s = 2 ∧ attempts "u7" s = 1 ∧ waiting "u7" s = 1.
Proof.
  intros s.
  destruct (one_lookup_per_attempt Scenario.cfg "u7" s) as [Hl _].
  - exists (Scenario.refused ++ Scenario.refusal ::
            [Request (IdString "u7"); Request (IdString "u7")]).
    vm_compute. reflexivity.
  - split_and!; [rewrite Hl|..]; vm_compute; reflexivity.
Defined.

(** ** Schema registration, continued *)

Lemma schemas_all_registered_witness :
  let s := default init (run Scenario.cfg init Scenario.race) in
  Forall (provisioned Scenario.cfg s
            {| conn_id := 0;
               conn_uri := setPathname Scenario.baseUrl "/AI_FARM_user_u123" |})
    ["Cow"; "MilkRecord"].
Proof.
  intros s.
  apply (schemas_all_registered Scenario.cfg s 0 "u123").
  - exists Scenario.race. vm_compute. reflexivity.
  - vm_compute. reflexivity.
Defined.

Lemma registering_reachable (cfg : Config) (s : State) :
  reachable cfg s → registering cfg s.
Proof.
  intros [tr Hr]. assert (registering cfg init) as H0 by by intros [|?] ? ?.
  revert H0 Hr. generalize init. induction tr as [|e tr IH]; intros s0 H0 Hr.
  - by injection Hr as <-.
  - simpl in Hr. destruct (step cfg s0 e) as [s1|] eqn:Hs; [|done].
    eauto using registering_step.
Qed.

(** X6. Nobody ever sees a handle that is only partly set up: on the handle
    the registry holds under a key, and on any handle a caller's promise
    has been fulfilled with, every schema has been registered and the
    creation of its collection has been asked for. *)
Theorem never_partially_registered (cfg : Config) (s : State) (k : string)
    (v : Value) (conn : Conn) :
  reachable cfg s →
  connections s !! k = Some (Connection conn) ∨
  (In (k, v) (returned s) ∧ outcome s v = Some (Fulfilled (Connection conn))) →
  Forall (provisioned cfg s conn) (schemaNames cfg).
Proof.
  intros Hreach Hcase.
  assert (wf s) as W by eauto using wf_reachable.
  pose proof (registering_reachable cfg s Hreach) as Hinv.
  assert (∃ p, tasks s !! p = Some {| t_key := k; t_phase := Done conn |})
    as (p & Hp).
  { destruct Hcase as [Hk|[Hin Hout]].
    - by destruct (wf_own s W _ _ Hk) as [_ ?].
    - pose proof (returned_belongs cfg s Hreach) as Hall.
      rewrite Forall_forall in Hall. apply list_elem_of_In in Hin.
      exact (fulfilled_by s k v conn (Hall _ Hin) Hout). }
  exact (Hinv p k _ Hp).
Qed.

Lemma never_partially_registered_witness :
  let s := default init (run Scenario.cfg init Scenario.race) in
  Forall (provisioned Scenario.cfg s
            {| conn_id := 0;
               conn_uri := setPathname Scenario.baseUrl "/AI_FARM_user_u123" |})
    ["Cow"; "MilkRecord"].
Proof.
  intros s.
  apply (never_partially_registered Scenario.cfg s "u123" (Promise 0)).
  - exists Scenario.race. vm_compute. reflexivity.
  - right. split; [vm_compute; repeat first [left; reflexivity | right]|].
    vm_compute. reflexivity.
Defined.

(** ** Name resolution, continued *)

Lemma dbName_prefixed (idStr : string) (user : option User) :
  Resolver.startsWith (Resolver.dbName idStr user) Resolver.PREFIX = true.
Proof.
  unfold Resolver.dbName, Resolver.normalize.
  destruct (Resolver.startsWith (Resolver.dbIdentifier idStr user) Resolver.PREFIX)
    eqn:E; [done|].
  unfold Resolver.startsWith. apply prefix_append.
Qed.

(** X13. Every resolved database name carries the prefix: whatever the id
    and whatever the profile holds, the name begins with [AI_FARM_user_]
    and is left alone by a second normalization. *)
Theorem resolved_name_has_prefix (idStr : string) (user : option User) :
  Resolver.startsWith (Resolver.dbName idStr user) Resolver.PREFIX = true ∧
  Resolver.normalize (Resolver.dbName idStr user) = Resolver.dbName idStr user.
Proof.
  split; [apply dbName_prefixed|apply normalize_idempotent].
Qed.

Lemma append_inj (p a b : string) : p +:+ a = p +:+ b → a = b.
Proof. induction p as [|c p IH]; simpl; [done|]. intros [= H]. auto. Qed.

(** X14. Users without a stored name never share a database: the derived
    name determines the id. *)
Theorem derived_names_are_distinct (id1 id2 : string) (u1 u2 : option User) :
  Resolver.storedName u1 = None →
  Resolver.storedName u2 = None →
  Resolver.dbName id1 u1 = Resolver.dbName id2 u2 →
  id1 = id2.
Proof.
  intros H1 H2. rewrite (dbName_fallback id1 u1 H1), (dbName_fallback id2 u2 H2).
  apply append_inj.
Qed.

Lemma derived_names_are_distinct_witness :
  Resolver.dbName "u1" None = Resolver.dbName "u1" (Some {| tenantDbName := Some "" |}) ∧
  "u1" = "u1".
Proof.
  split; [reflexivity|].
  apply (derived_names_are_distinct "u1" "u1" None
           (Some {| tenantDbName := Some "" |})); reflexivity.
Defined.

(** X15. Writing a resolved name back into a profile changes nothing: whoever
    holds it as stored name resolves to that same database. *)
Theorem resolved_name_is_stable (idStr idStr' : string) (user : option User) :
  Resolver.dbName idStr'
    (Some {| tenantDbName := Some (Resolver.dbName idStr user) |})
  = Resolver.dbName idStr user.
Proof.
  pose proof (dbName_prefixed idStr user) as Hpre.
  assert (Resolver.dbName idStr user ≠ "") as Hne.
  { intros E. rewrite E in Hpre. done. }
  rewrite (dbName_stored idStr' _ _ (storedName_explicit _ Hne)).
  unfold Resolver.normalize. by rewrite Hpre.
Qed.

(** * Properties of the dashboard's list bookkeeping *)

(** ** Heat alerts *)

Lemma markRead_unread (alertId : string) (l : list Alerts.HeatAlert) :
  Alerts.unread (Alerts.markRead alertId l) + Alerts.unreadWith alertId l
    = Alerts.unread l.
Proof.
  unfold Alerts.unread, Alerts.unreadWith, Alerts.markRead.
  induction l as [|a l IH]; simpl; [done|].
  destruct (String.eqb (Alerts.id a) alertId); simpl;
    destruct (Alerts.isRead a); simpl; lia.
Qed.

Lemma markRead_ids (alertId : string) (l : list Alerts.HeatAlert) :
  List.map Alerts.id (Alerts.markRead alertId l) = List.map Alerts.id l.
Proof.
  unfold Alerts.markRead. induction l as [|a l IH]; simpl; [done|].
  rewrite IH. by destruct (String.eqb (Alerts.id a) alertId).
Qed.

Lemma without_unread (alertId : string) (l : list Alerts.HeatAlert) :
  Alerts.unread (Alerts.without alertId l) + Alerts.unreadWith alertId l
    = Alerts.unread l.
Proof.
  unfold Alerts.unread, Alerts.unreadWith, Alerts.without.
  induction l as [|a l IH]; simpl; [done|].
  destruct (String.eqb (Alerts.id a) alertId); simpl;
    destruct (Alerts.isRead a); simpl; lia.
Qed.

(** X16. Marking an alert as read keeps every alert in its place, lowers the
    unread count by exactly the number of unread alerts with that id, and,
    when the handler sees the current list, reports the unread count of
    the list it leaves behind; a failed request changes nothing. *)
Theorem mark_as_read_badge (alertId : string) (v : Alerts.View) :
  let v' := Alerts.markAsRead true alertId (Alerts.alerts v) v in
  Alerts.badge v' = Some (Alerts.unread (Alerts.alerts v')) ∧
  Alerts.unread (Alerts.alerts v') + Alerts.unreadWith alertId (Alerts.alerts v)
    = Alerts.unread (Alerts.alerts v) ∧
  List.map Alerts.id (Alerts.alerts v') = List.map Alerts.id (Alerts.alerts v) ∧
  Alerts.unreadWith alertId (Alerts.alerts v') = 0 ∧
  Alerts.markAsRead false alertId (Alerts.alerts v) v = v.
Proof.
  simpl. split_and!; [done|apply markRead_unread|apply markRead_ids| |done].
  unfold Alerts.unreadWith, Alerts.markRead.
  induction (Alerts.alerts v) as [|a l IH]; simpl; [done|].
  destruct (String.eqb (Alerts.id a) alertId) eqn:E; simpl.
  - rewrite E. simpl. exact IH.
  - rewrite E. simpl. exact IH.
Qed.

(** X17. Dismissing an alert removes exactly the alerts with that id, keeps the
    others in order, lowers the unread count by the number of unread ones
    removed and reports the unread count of the list it leaves behind; a
    failed request changes nothing. *)
Theorem dismiss_alert_badge (alertId : string) (v : Alerts.View) :
  let v' := Alerts.dismissAlert true alertId (Alerts.alerts v) v in
  Alerts.badge v' = Some (Alerts.unread (Alerts.alerts v')) ∧
  (∀ a, In a (Alerts.alerts v') ↔
        In a (Alerts.alerts v) ∧ Alerts.id a ≠ alertId) ∧
  Alerts.unread (Alerts.alerts v') + Alerts.unreadWith alertId (Alerts.alerts v)
    = Alerts.unread (Alerts.alerts v) ∧
  Alerts.without alertId (Alerts.alerts v') = Alerts.alerts v' ∧
  Alerts.dismissAlert false alertId (Alerts.alerts v) v = v.
Proof.
  simpl. split_and!; [done| |apply without_unread| |done].
  - intros a. unfold Alerts.without. rewrite List.filter_In, negb_true_iff.
    by rewrite String.eqb_neq.
  - unfold Alerts.without.
    induction (Alerts.alerts v) as [|a l IH]; simpl; [done|].
    destruct (String.eqb (Alerts.id a) alertId) eqn:E; simpl; [done|].
    by rewrite E, IH.
Qed.

Lemma markRead_without (i j : string) (l : list Alerts.HeatAlert) :
  Alerts.markRead i (Alerts.without j l) = Alerts.without j (Alerts.markRead i l).
Proof.
  unfold Alerts.markRead, Alerts.without.
  induction l as [|a l IH]; simpl; [done|].
  destruct (String.eqb (Alerts.id a) j) eqn:Ej;
    destruct (String.eqb (Alerts.id a) i) eqn:Ei; simpl;
    rewrite ?Ej, ?Ei; simpl; by rewrite IH.
Qed.

(** X18. When each handler runs on the list the other one left behind,
    [markAsRead] for one alert and [dismissAlert] for another leave the
    same list and the same count in either order. When both were created
    by the same render, so that both close over the same list, the later
    one decides: a dismissal after a mark puts back the old list without
    the dismissed alert, and the mark is gone. *)
Theorem mark_and_dismiss_commute (i j : string) (v : Alerts.View) :
  let marked := Alerts.markAsRead true i (Alerts.alerts v) v in
  let dismissed := Alerts.dismissAlert true j (Alerts.alerts v) v in
  Alerts.dismissAlert true j (Alerts.alerts marked) marked
    = Alerts.markAsRead true i (Alerts.alerts dismissed) dismissed ∧
  Alerts.alerts (Alerts.dismissAlert true j (Alerts.alerts v) marked)
    = Alerts.without j (Alerts.alerts v).
Proof.
  simpl. split; [|done]. by rewrite markRead_without.
Qed.

(** ** Cow status names *)

(** X19. Whatever the form holds, the status sent to the server is one of the
    six the server knows, and such a status comes back unchanged when the
    cow is loaded, opened for editing and saved again. *)
Theorem status_round_trip (status : string) :
  In (Herd.formatStatusForBackend status) Herd.backendStatuses ∧
  Herd.formatStatusForBackend
    (Herd.normalizeStatus (Herd.formatStatusForBackend status))
  = Herd.formatStatusForBackend status.
Proof.
  unfold Herd.formatStatusForBackend at 1 3 4.
  repeat (match goal with
          | |- context [if String.eqb status ?x then _ else _] =>
              destruct (String.eqb status x)
          end; [split; [simpl; tauto|vm_compute; reflexivity]|]).
  split; [simpl; tauto|vm_compute; reflexivity].
Qed.

(** ** Attendance cards *)

(** X20. Every attendance record is counted on exactly one of the first two
    cards; the third is never negative, and the three add up to the
    number of staff unless there are more records than staff, when the
    third shows zero. *)
Theorem attendance_cards (staffLength : nat)
    (attendance : list Attendance.AttendanceRecord) :
  Attendance.presentCount attendance + Attendance.checkedOutCount attendance
    = length attendance ∧
  (0 ≤ Attendance.notCheckedIn staffLength attendance)%Z ∧
  (length attendance ≤ staffLength →
   (Attendance.notCheckedIn staffLength attendance
    + Z.of_nat (Attendance.presentCount attendance)
    + Z.of_nat (Attendance.checkedOutCount attendance))%Z
   = Z.of_nat staffLength) ∧
  (staffLength ≤ length attendance →
   Attendance.notCheckedIn staffLength attendance = 0%Z).
Proof.
  assert (Attendance.presentCount attendance
          + Attendance.checkedOutCount attendance = length attendance) as Hsum.
  { unfold Attendance.presentCount, Attendance.checkedOutCount.
    induction attendance as [|a l IH]; simpl; [done|].
    destruct (Attendance.checkedOut a); simpl; lia. }
  unfold Attendance.notCheckedIn. split_and!; [done|lia|lia|lia].
Qed.

Lemma attendance_cards_witness :
  (Attendance.notCheckedIn 3
     [ {| Attendance.id := "r1"; Attendance.staff_id := "s1";
          Attendance.check_in := "2024-05-01T06:00:00Z";
          Attendance.check_out := None;
          Attendance.biometric_type := Some "fingerprint";
          Attendance.status := "present"; Attendance.staff := None |} ]
   + 1 + 0)%Z = 3%Z.
Proof.
  apply (attendance_cards 3
    [ {| Attendance.id := "r1"; Attendance.staff_id := "s1";
         Attendance.check_in := "2024-05-01T06:00:00Z";
         Attendance.check_out := None;
         Attendance.biometric_type := Some "fingerprint";
         Attendance.status := "present"; Attendance.staff := None |} ]).
  simpl. lia.
Defined.
